(** * The Ook! decoder of Ciphey: transpiler, bracket validator, tape machine

    A shallow embedding of [ciphey/basemods/Decoders/ook.py] (class [Ook]):
    [ook_to_brainfuck], [bracemap_and_check], [fitness] and [decode], the
    last with its interpreter loop written as a step function and a
    fuel-bounded driver.

    Python values are modelled as follows.
    - [str] is a list of Unicode code points ([N]).
    - [int] is [Z] where the code computes with it (tape cells, tape
      pointer); positions produced by [enumerate] and the instruction
      pointer, which are never negative, are [nat].
    - [float] is the primitive binary64 float of the kernel.
    - [dict] is a [gmap], [set] a [gset].
    - A raised exception is the [Raise] case of the [res] monad. *)

From Stdlib Require Import ZArith NArith String Ascii List Lia PrimFloat Uint63.
From stdpp Require Import base option list gmap.

Local Open Scope Z_scope.
#[local] Set Warnings "-inexact-float".

(** ** Python strings *)

Module Py.

Abbreviation str := (list N).

Definition ord (a : ascii) : N := N_of_ascii a.
Arguments ord : simpl never.

(** A string literal of the source. *)
Definition lit (s : string) : str := map ord (list_ascii_of_string s).

(** [str.isspace] on one code point; [re.match(r"\s", c)] on a one
    character [str] decides the same set. *)
Definition isspace (c : N) : bool :=
  ((9 <=? c) && (c <=? 13) || (28 <=? c) && (c <=? 32)
   || (c =? 133) || (c =? 160) || (c =? 5760)
   || (8192 <=? c) && (c <=? 8202)
   || (c =? 8232) || (c =? 8233) || (c =? 8239) || (c =? 8287)
   || (c =? 12288))%N.

Fixpoint lstrip (s : str) : str :=
  match s with
  | c :: s' => if isspace c then lstrip s' else s
  | [] => []
  end.

Definition rstrip (s : str) : str := rev (lstrip (rev s)).

(** [s.strip()] *)
Definition strip (s : str) : str := rstrip (lstrip s).

(** [s.split()]: the maximal runs of non-whitespace characters; [cur]
    is the run being read. *)
Fixpoint split_from (cur : str) (s : str) : list str :=
  match s with
  | [] => match cur with [] => [] | _ => [cur] end
  | c :: s' =>
      if isspace c
      then match cur with
           | [] => split_from [] s'
           | _ => cur :: split_from [] s'
           end
      else split_from (cur ++ [c]) s'
  end.

Definition split (s : str) : list str := split_from [] s.

Fixpoint startswith (s prefix : str) {struct prefix} : bool :=
  match prefix, s with
  | [], _ => true
  | p :: prefix', c :: s' => (c =? p)%N && startswith s' prefix'
  | _ :: _, [] => false
  end.

(** [s.count(sub)]: occurrences of [sub] in [s], scanned from the left
    without overlap; [skip] characters belong to the occurrence just
    counted. *)
Fixpoint count_from (sub : str) (skip : nat) (s : str) : nat :=
  match s with
  | [] => 0%nat
  | _ :: s' =>
      match skip with
      | S k => count_from sub k s'
      | O =>
          if startswith s sub
          then S (count_from sub (length sub - 1) s')
          else count_from sub 0 s'
      end
  end.

Definition count (s sub : str) : nat :=
  match sub with
  | [] => S (length s)
  | _ => count_from sub 0 s
  end.

(** Exceptions the decoder's statements can raise. *)
Inductive exn := IndexError | KeyError | TypeError | ValueError.

Inductive res (A : Type) : Type :=
| Ok (a : A)
| Raise (e : exn).
Arguments Ok {A} a.
Arguments Raise {A} e.

#[export] Instance res_ret : MRet res := fun A a => Ok a.
#[export] Instance res_bind : MBind res := fun A B f m =>
  match m with
  | Ok a => f a
  | Raise e => Raise e
  end.

(** Position addressed by index [i] in a sequence of length [len]:
    negative indices count from the end. *)
Definition index (len : nat) (i : Z) : option nat :=
  if (0 <=? i) && (i <? Z.of_nat len) then Some (Z.to_nat i)
  else if (- Z.of_nat len <=? i) && (i <? 0) then Some (Z.to_nat (i + Z.of_nat len))
  else None.

(** [l[i]] *)
Definition getitem {A} (l : list A) (i : Z) : res A :=
  match index (length l) i with
  | Some k => match l !! k with Some v => Ok v | None => Raise IndexError end
  | None => Raise IndexError
  end.

(** [l[i] = v] *)
Definition setitem {A} (l : list A) (i : Z) (v : A) : res (list A) :=
  match index (length l) i with
  | Some k => Ok (<[k:=v]> l)
  | None => Raise IndexError
  end.

(** [d[k]] on a dictionary that may be [None]. *)
Definition dict_getitem (d : option (gmap nat nat)) (k : nat) : res nat :=
  match d with
  | None => Raise TypeError
  | Some d => match d !! k with Some v => Ok v | None => Raise KeyError end
  end.

(** [chr(v)] *)
Definition chr (v : Z) : res N :=
  if (0 <=? v) && (v <? 1114112) then Ok (Z.to_N v) else Raise ValueError.

(** [float(n)] for a length or a count, exact below 2^53. *)
Definition float_of_nat (n : nat) : float :=
  PrimFloat.of_uint63 (Uint63.of_Z (Z.of_nat n)).

End Py.
Import Py.

(** ** The host environment

    Two builtins are left to the host: [str.lower], whose case mapping is
    that of the interpreter's Unicode database, and [time.time], read
    once before the interpreter loop (reading 0) and once at the start of
    each iteration (reading [k] in the [k]-th iteration). *)

Record host := {
  str_lower : str -> str;
  time_time : nat -> float;
}.

(** ** Transpiler *)

Definition ook_map : gmap str N :=
  list_to_map
    [ (lit "ook. ook?", ord ">");
      (lit "ook? ook.", ord "<");
      (lit "ook. ook.", ord "+");
      (lit "ook! ook!", ord "-");
      (lit "ook! ook.", ord ".");
      (lit "ook. ook!", ord ",");
      (lit "ook! ook?", ord "[");
      (lit "ook? ook!", ord "]") ].

(** The pairing loop of [ook_to_brainfuck]: on a known pair emit its
    instruction and move past both tokens, otherwise move past one. *)
Fixpoint pair_tokens (tokens : list str) : str :=
  match tokens with
  | t1 :: ((t2 :: rest) as tl) =>
      match ook_map !! (t1 ++ lit " " ++ t2) with
      | Some instruction => instruction :: pair_tokens rest
      | None => pair_tokens tl
      end
  | _ => []
  end.

(** [tokens]: [ook_program.lower().strip().split()] *)
Definition tokens_of (H : host) (ook_program : str) : list str :=
  split (strip (str_lower H ook_program)).

Definition ook_to_brainfuck (H : host) (ook_program : str) : option str :=
  match pair_tokens (tokens_of H ook_program) with
  | [] => None
  | brainfuck_code => Some brainfuck_code
  end.

(** ** Structure validator *)

(** The locals of [bracemap_and_check]. [open_stack] is used as a stack
    only ([append], [pop], [len]); its top is the head of the list. *)
Record scan := {
  open_stack : list nat;
  bracemap : gmap nat nat;
  legal_count : nat;
  prints : bool;
}.

Definition legal_instructions : gset N :=
  {[ ord "+"; ord "-"; ord ">"; ord "<"; ord "["; ord "]"; ord "."; ord "," ]}.

Definition is_legal (instruction : N) : bool :=
  bool_decide (instruction ∈ legal_instructions) || isspace instruction.

Definition scan_init : scan :=
  {| open_stack := []; bracemap := ∅; legal_count := 0; prints := false |}.

(** One iteration of the [for idx, instruction in enumerate(program)]
    loop; [None] is the [return (None, False)] of the [except] branch. *)
Definition scan_step (idx : nat) (instruction : N) (s : scan) : option scan :=
  let legal_count' :=
    if is_legal instruction then S (legal_count s) else legal_count s in
  if negb (prints s) && (instruction =? ord ".")%N then
    Some {| open_stack := open_stack s; bracemap := bracemap s;
            legal_count := legal_count'; prints := true |}
  else if (instruction =? ord "[")%N then
    Some {| open_stack := idx :: open_stack s; bracemap := bracemap s;
            legal_count := legal_count'; prints := prints s |}
  else if (instruction =? ord "]")%N then
    match open_stack s with
    | opbracket :: stack' =>
        Some {| open_stack := stack';
                bracemap := <[idx := opbracket]> (<[opbracket := idx]> (bracemap s));
                legal_count := legal_count'; prints := prints s |}
    | [] => None
    end
  else
    Some {| open_stack := open_stack s; bracemap := bracemap s;
            legal_count := legal_count'; prints := prints s |}.

Fixpoint scan_loop (program : str) (idx : nat) (s : scan) : option scan :=
  match program with
  | [] => Some s
  | instruction :: rest =>
      match scan_step idx instruction s with
      | Some s' => scan_loop rest (S idx) s'
      | None => None
      end
  end.

Definition bracemap_and_check (program : str) : option (gmap nat nat) * bool :=
  match scan_loop program 0 scan_init with
  | None => (None, false)
  | Some s =>
      let is_brainfuck :=
        (legal_count s =? length program)%nat
        && (length (open_stack s) =? 0)%nat
        && prints s in
      (Some (bracemap s), is_brainfuck)
  end.

(** ** Applicability heuristic *)

Definition fitness (H : host) (text : str) : float :=
  let ook_dot_count := count (str_lower H text) (lit "ook.") in
  let ook_exclamation_count := count (str_lower H text) (lit "ook!") in
  let ook_question_count := count (str_lower H text) (lit "ook?") in
  let total_chars := length text in
  if (total_chars =? 0)%nat then 0%float
  else
    let ook_token_proportion :=
      (float_of_nat (ook_dot_count + ook_exclamation_count + ook_question_count)
       / float_of_nat total_chars)%float in
    if (0.1 <? ook_token_proportion)%float then
      if (0 <? ook_dot_count)%nat && (0 <? ook_exclamation_count)%nat
         && (0 <? ook_question_count)%nat
      then
        let min_tokens :=
          Nat.min (Nat.min ook_dot_count ook_exclamation_count) ook_question_count in
        let max_tokens :=
          Nat.max (Nat.max ook_dot_count ook_exclamation_count) ook_question_count in
        let balance_score :=
          if (0 <? max_tokens)%nat
          then (float_of_nat min_tokens / float_of_nat max_tokens)%float
          else 0%float in
        (ook_token_proportion * 0.7 + balance_score * 0.3)%float
      else 0%float
    else 0%float.

(** ** Tape machine *)

(** The mutable locals of the interpreter loop of [decode]. *)
Record machine := {
  codeptr : nat;
  memptr : Z;
  memory : list Z;
  result : str;
}.

Definition machine_init : machine :=
  {| codeptr := 0; memptr := 0; memory := replicate 100 0; result := [] |}.

Definition timelimit : float := 60%float.

(** [current - start > timelimit] *)
Definition timed_out (start current : float) : bool :=
  (timelimit <? current - start)%float.

Definition set_memory (m : machine) (memory' : list Z) : machine :=
  {| codeptr := codeptr m; memptr := memptr m; memory := memory'; result := result m |}.

Definition set_memptr (m : machine) (memptr' : Z) : machine :=
  {| codeptr := codeptr m; memptr := memptr'; memory := memory m; result := result m |}.

Definition set_codeptr (m : machine) (codeptr' : nat) : machine :=
  {| codeptr := codeptr'; memptr := memptr m; memory := memory m; result := result m |}.

Definition set_result (m : machine) (result' : str) : machine :=
  {| codeptr := codeptr m; memptr := memptr m; memory := memory m; result := result' |}.

(** [cmd == "[" and memory[memptr] == 0]: the cell is read only when the
    instruction is the bracket. *)
Definition open_taken (cmd : N) (m : machine) : res bool :=
  if (cmd =? ord "[")%N
  then v ← getitem (memory m) (memptr m); mret (v =? 0)
  else mret false.

(** [cmd == "]" and memory[memptr]] *)
Definition close_taken (cmd : N) (m : machine) : res bool :=
  if (cmd =? ord "]")%N
  then v ← getitem (memory m) (memptr m); mret (negb (v =? 0))
  else mret false.

(** The [if]/[elif] chain on [cmd], before [codeptr += 1]. *)
Definition dispatch (bracemap : option (gmap nat nat)) (cmd : N) (m : machine)
  : res machine :=
  if (cmd =? ord "+")%N then
    v ← getitem (memory m) (memptr m);
    memory' ← setitem (memory m) (memptr m) (if v <? 255 then v + 1 else 0);
    mret (set_memory m memory')
  else if (cmd =? ord "-")%N then
    v ← getitem (memory m) (memptr m);
    memory' ← setitem (memory m) (memptr m) (if 0 <? v then v - 1 else 255);
    mret (set_memory m memory')
  else if (cmd =? ord ">")%N then
    let m' :=
      if memptr m =? Z.of_nat (length (memory m)) - 1
      then set_memory m (memory m ++ [0]) else m in
    mret (set_memptr m' (memptr m' + 1))
  else if (cmd =? ord "<")%N then
    if memptr m =? 0
    then mret (set_memptr m (Z.of_nat (length (memory m)) - 1))
    else mret (set_memptr m (memptr m - 1))
  else
    jump_open ← open_taken cmd m;
    if jump_open : bool then
      target ← dict_getitem bracemap (codeptr m);
      mret (set_codeptr m target)
    else
      jump_close ← close_taken cmd m;
      if jump_close : bool then
        target ← dict_getitem bracemap (codeptr m);
        mret (set_codeptr m target)
      else if (cmd =? ord ".")%N then
        v ← getitem (memory m) (memptr m);
        c ← chr v;
        mret (set_result m (result m ++ [c]))
      else if (cmd =? ord ",")%N then
        memory' ← setitem (memory m) (memptr m) 0;
        mret (set_memory m memory')
      else mret m.

(** The body of the [while] loop after the deadline check. *)
Definition step (brainfuck_code : str) (bracemap : option (gmap nat nat))
    (m : machine) : res machine :=
  cmd ← getitem brainfuck_code (Z.of_nat (codeptr m));
  m' ← dispatch bracemap cmd m;
  mret (set_codeptr m' (S (codeptr m'))).

(** How a call of [decode] ends; [OutOfFuel] is the driver's, not the
    program's. *)
Inductive outcome :=
| Returned (r : option str)
| Raised (e : exn)
| OutOfFuel.

(** The [while codeptr < len(brainfuck_code)] loop; [n] iterations have
    been made, so this one reads the clock for the [S n]-th time. *)
Fixpoint run (H : host) (brainfuck_code : str) (bracemap : option (gmap nat nat))
    (fuel n : nat) (m : machine) : outcome :=
  if (codeptr m <? length brainfuck_code)%nat then
    match fuel with
    | O => OutOfFuel
    | S fuel' =>
        if timed_out (time_time H 0) (time_time H (S n)) then Returned None
        else
          match step brainfuck_code bracemap m with
          | Ok m' => run H brainfuck_code bracemap fuel' (S n) m'
          | Raise e => Raised e
          end
    end
  else Returned (Some (result m)).

(** ** Decoder *)

(** The stages of the pipeline [decode] enters, in order: the call of
    [ook_to_brainfuck], the call of [bracemap_and_check], the interpreter
    loop. *)
Inductive stage := Transpile | Validate | Execute.

Definition decode (H : host) (fuel : nat) (ctext : str) : list stage * outcome :=
  match ook_to_brainfuck H ctext with
  | None => ([Transpile], Returned None)
  | Some brainfuck_code =>
      let '(bracemap, isbf) := bracemap_and_check brainfuck_code in
      if negb isbf then ([Transpile; Validate], Returned None)
      else ([Transpile; Validate; Execute],
            run H brainfuck_code bracemap fuel 0 machine_init)
  end.

(** ** Reference notions the validator is compared with *)

(** Nesting depth after reading [program] at depth [d]; [None] when a
    closing bracket is read at depth 0. *)
Fixpoint depth_after (d : nat) (program : str) : option nat :=
  match program with
  | [] => Some d
  | c :: rest =>
      if (c =? ord "[")%N then depth_after (S d) rest
      else if (c =? ord "]")%N then
        match d with
        | O => None
        | S d' => depth_after d' rest
        end
      else depth_after d rest
  end.

(** Position of the first closing bracket of [rest] (whose first
    character is at position [pos]) read at depth 0, starting at depth [d]. *)
Fixpoint find_close (d : nat) (rest : str) (pos : nat) : option nat :=
  match rest with
  | [] => None
  | c :: rest' =>
      if (c =? ord "[")%N then find_close (S d) rest' (S pos)
      else if (c =? ord "]")%N then
        match d with
        | O => Some pos
        | S d' => find_close d' rest' (S pos)
        end
      else find_close d rest' (S pos)
  end.

(** The nearest closing bracket after position [i] that closes the
    bracket opened at [i]. *)
Definition matching_close (program : str) (i : nat) : option nat :=
  find_close 0 (drop (S i) program) (S i).

(** Output predicted by arithmetic modulo 256 for a program of [+], [-]
    and [.] run on a counter [acc]. *)
Fixpoint predicted (acc : Z) (program : str) : str :=
  match program with
  | [] => []
  | c :: rest =>
      if (c =? ord "+")%N then predicted (acc + 1) rest
      else if (c =? ord "-")%N then predicted (acc - 1) rest
      else if (c =? ord ".")%N then Z.to_N (acc mod 256) :: predicted acc rest
      else predicted acc rest
  end.

(** The tape pointer addresses a cell and every cell is a byte. *)
Definition tape_ok (m : machine) : Prop :=
  0 <= memptr m < Z.of_nat (length (memory m))
  /\ Forall (fun v => 0 <= v <= 255) (memory m).

(** [t] occurs in [s]. *)
Definition substr (t s : str) : Prop := exists pre post, s = pre ++ t ++ post.

(** Invariant of the scan: the open positions are distinct and all
    before the position being read. *)
Definition stack_ok (idx : nat) (stack : list nat) : Prop :=
  NoDup stack /\ Forall (fun p => (p < idx)%nat) stack.

(** The characters written so far are bytes. *)
Definition output_ok (m : machine) : Prop :=
  Forall (fun c => (c < 256)%N) (result m).

(** The step at instruction [cmd] is an executed jump: an opening
    bracket on a zero cell or a closing bracket on a non-zero cell. *)
Definition jumps (cmd : N) (m : machine) : Prop :=
  exists v, getitem (memory m) (memptr m) = Ok v
            /\ ((cmd = ord "[" /\ v = 0) \/ (cmd = ord "]" /\ v <> 0)).

(** States the interpreter loop can be in at the head of an iteration. *)
Inductive reachable (brainfuck_code : str) (bracemap : option (gmap nat nat))
  : machine -> Prop :=
| reach_init : reachable brainfuck_code bracemap machine_init
| reach_step m m' :
    reachable brainfuck_code bracemap m ->
    (codeptr m < length brainfuck_code)%nat ->
    step brainfuck_code bracemap m = Ok m' ->
    reachable brainfuck_code bracemap m'.

(** ** Hosts and inputs used in the examples *)

(** Lower-casing of ASCII letters. *)
Definition ascii_lower (s : str) : str :=
  map (fun c => if (65 <=? c) && (c <=? 90) then c + 32 else c)%N s.

(** A clock that stands still. *)
Definition still_host : host :=
  {| str_lower := ascii_lower; time_time := fun _ => 0%float |}.

(** A clock that advances by 25 seconds per reading. *)
Definition slow_host : host :=
  {| str_lower := ascii_lower;
     time_time := fun n => (float_of_nat n * 25)%float |}.

(** Sixty-five times the pair of [+], then the pair of [.], in mixed
    case and on several lines. *)
Definition sixty_five_text : str :=
  lit "  OOK. Ook. " ++ concat (replicate 64 (lit "ook. ook." ++ [10%N]))
  ++ lit "Ook! Ook.  ".

(** The token stream of [sixty_five_text]. *)
Definition sixty_five_tokens : list str :=
  concat (replicate 65 [lit "ook."; lit "ook."]) ++ [lit "ook!"; lit "ook."].

(** The Ook! text of [+[.]], which prints without end. *)
Definition endless_text : str :=
  lit "Ook. Ook. Ook! Ook? Ook! Ook. Ook? Ook!".

(** A machine whose tape pointer is on the last cell. *)
Definition at_right_edge : machine :=
  {| codeptr := 0; memptr := 99; memory := replicate 100 0; result := [] |}.

(** ** Reference notions for the further properties *)

(** The token pair [ook_map] sends to an instruction. *)
Definition ook_pair (instruction : N) : list str :=
  if (instruction =? ord ">")%N then [lit "ook."; lit "ook?"]
  else if (instruction =? ord "<")%N then [lit "ook?"; lit "ook."]
  else if (instruction =? ord "+")%N then [lit "ook."; lit "ook."]
  else if (instruction =? ord "-")%N then [lit "ook!"; lit "ook!"]
  else if (instruction =? ord ".")%N then [lit "ook!"; lit "ook."]
  else if (instruction =? ord ",")%N then [lit "ook."; lit "ook!"]
  else if (instruction =? ord "[")%N then [lit "ook!"; lit "ook?"]
  else if (instruction =? ord "]")%N then [lit "ook?"; lit "ook!"]
  else [].

(** The token stream that spells a program, pair by pair. *)
Definition ook_tokens (program : str) : list str :=
  concat (map ook_pair program).

(** A token as [split] yields them: no whitespace inside. *)
Definition token (t : str) : Prop := Forall (fun c => isspace c = false) t.

(** Number of output instructions of a program. *)
Definition dots (program : str) : nat :=
  length (filter (fun c => c = ord ".") program).

(** Positions [i] and [j] hold an opening bracket and a later closing
    bracket. *)
Definition bracket_pair (program : str) (i j : nat) : Prop :=
  program !! i = Some (ord "[") /\ program !! j = Some (ord "]") /\ (i < j)%nat.

(** Invariant of the scan before position [idx]: the open positions hold
    opening brackets without an entry yet, and the entries come in
    pairs, both ways, between an opening bracket and a later closing
    bracket already read. *)
Definition table_ok (program : str) (idx : nat) (s : scan) : Prop :=
  stack_ok idx (open_stack s)
  /\ (forall p, p ∈ open_stack s ->
        program !! p = Some (ord "[") /\ bracemap s !! p = None)
  /\ (forall i j, bracemap s !! i = Some j ->
        bracemap s !! j = Some i /\ (i < idx)%nat
        /\ (bracket_pair program i j \/ bracket_pair program j i)).

(** [>[-]<+.] in Ook!, in mixed case, after a line of prose. *)
Definition noisy_text : str :=
  lit "the librarian says" ++ [10%N]
  ++ lit "Ook. Ook? OOK! Ook? ook! ook! Ook? Ook! Ook? Ook. Ook. Ook. Ook! Ook.".

(** * Properties *)

(** ** The validator and the machine on small programs *)

Example unmatched_close_invalid :
  bracemap_and_check (lit "+].") = (None, false).
Proof. vm_compute. reflexivity. Qed.

Example unmatched_open_invalid :
  (bracemap_and_check (lit "[+.")).2 = false.
Proof. vm_compute. reflexivity. Qed.

Example no_output_invalid :
  (bracemap_and_check (lit "+[-]")).2 = false.
Proof. vm_compute. reflexivity. Qed.

Example illegal_character_invalid :
  (bracemap_and_check (lit "+x.")).2 = false.
Proof. vm_compute. reflexivity. Qed.

Example eight_times_eight_plus_one :
  run still_host (lit "++++++++[>++++++++<-]>+.")
      (bracemap_and_check (lit "++++++++[>++++++++<-]>+.")).1 200 0 machine_init
  = Returned (Some (lit "A")).
Proof. vm_compute. reflexivity. Qed.

Example seventy_two_plus_dot_seven_minus_dot :
  predicted 0 (replicate 72 (ord "+") ++ [ord "."]
               ++ replicate 7 (ord "-") ++ [ord "."])
  = lit "HA".
Proof. vm_compute. reflexivity. Qed.

(** ** Strings: tokens and occurrences *)

Lemma lstrip_suffix s : exists pre, s = pre ++ lstrip s.
Proof.
  induction s as [|c s [pre IH]]; [by exists []|]. cbn.
  destruct (isspace c); [|by exists []].
  exists (c :: pre). cbn. by f_equal.
Qed.

Lemma strip_substr s : substr (strip s) s.
Proof.
  unfold strip, rstrip.
  destruct (lstrip_suffix s) as [pre Hpre].
  destruct (lstrip_suffix (rev (lstrip s))) as [post Hpost].
  exists pre, (rev post). rewrite Hpre at 1. f_equal.
  rewrite <- (rev_involutive (lstrip s)), Hpost at 1.
  by rewrite rev_app_distr.
Qed.

Lemma substr_trans a b c : substr a b -> substr b c -> substr a c.
Proof.
  intros (p1 & q1 & ->) (p2 & q2 & ->).
  exists (p2 ++ p1), (q1 ++ q2). by rewrite <- !app_assoc.
Qed.

(** A token of [split] is a run of non-whitespace characters of the text. *)
Lemma split_from_token s cur t :
  t ∈ split_from cur s ->
  Forall (fun c => isspace c = false) cur ->
  substr t (cur ++ s) /\ Forall (fun c => isspace c = false) t.
Proof.
  revert cur. induction s as [|c s IH]; intros cur; cbn [split_from].
  - destruct cur as [|c0 cur]; [by intros ?%elem_of_nil|].
    intros ->%list_elem_of_singleton Hcur. split; [|done].
    exists [], []. by rewrite !app_nil_r.
  - destruct (isspace c) eqn:Hc.
    + assert (Hrec : t ∈ split_from [] s ->
                     substr t (cur ++ c :: s) /\ Forall (fun c => isspace c = false) t).
      { intros Hin. destruct (IH [] Hin) as [(pre & post & Hs) Ht]; [constructor|].
        split; [|done]. exists (cur ++ c :: pre), post.
        cbn in Hs. rewrite Hs, <- app_assoc. done. }
      destruct cur as [|c0 cur]; [by intros Hin _; apply Hrec|].
      intros [->|Hin]%elem_of_cons Hcur; [|by apply Hrec].
      split; [|done]. by exists [], (c :: s).
    + intros Hin Hcur.
      destruct (IH (cur ++ [c]) Hin) as [Hsub Ht].
      { apply Forall_app. split; [done|]. by constructor. }
      split; [|done]. by rewrite <- app_assoc in Hsub.
Qed.

Lemma startswith_app sub post : startswith (sub ++ post) sub = true.
Proof. induction sub as [|p sub IH]; cbn; [done|]. by rewrite N.eqb_refl, IH. Qed.

(** A string that occurs is counted. *)
Lemma count_substr s sub :
  sub <> [] -> substr sub s -> (0 < count s sub)%nat.
Proof.
  intros Hne (pre & post & ->). destruct sub as [|p sub']; [done|].
  unfold count. induction pre as [|c pre IH].
  - pose proof (startswith_app (p :: sub') post) as Hstart.
    cbn [app] in *. cbn [count_from]. rewrite Hstart. lia.
  - cbn [app count_from]. destruct (startswith _ _); [lia|done].
Qed.

(** ** Transpiler *)

(** The three token markers. *)
Lemma ook_map_first_token t1 t2 instruction :
  Forall (fun c => isspace c = false) t1 ->
  ook_map !! (t1 ++ lit " " ++ t2) = Some instruction ->
  t1 = lit "ook." \/ t1 = lit "ook!" \/ t1 = lit "ook?".
Proof.
  intros Ht1 Hin. apply elem_of_list_to_map_2 in Hin.
  assert (Hkey : forall a b, t1 ++ lit " " ++ t2 = lit a ++ lit " " ++ b ->
            Forall (fun c => isspace c = false) (lit a) -> t1 = lit a).
  { intros a b. generalize (lit a) as k. clear Hin.
    induction Ht1 as [|c t1 Hc _ IH]; intros k Heq Hk.
    - destruct Hk as [|d k Hd _]; [done|]. cbn in Heq.
      injection Heq as <- _. done.
    - destruct Hk as [|d k Hd Hk]; cbn in Heq.
      + injection Heq as -> _. done.
      + injection Heq as -> Heq. f_equal. by apply IH. }
  assert (Hmark : forall a, a = "ook."%string \/ a = "ook!"%string \/ a = "ook?"%string ->
            Forall (fun c => isspace c = false) (lit a)).
  { intros a [->|[->| ->]]; repeat constructor. }
  repeat (apply elem_of_cons in Hin as [[= Hk _]|Hin]);
    [..|by apply elem_of_nil in Hin].
  - left. apply (Hkey "ook."%string (lit "ook?")); [done|]. apply Hmark; auto.
  - right; right. apply (Hkey "ook?"%string (lit "ook.")); [done|]. apply Hmark; auto.
  - left. apply (Hkey "ook."%string (lit "ook.")); [done|]. apply Hmark; auto.
  - right; left. apply (Hkey "ook!"%string (lit "ook!")); [done|]. apply Hmark; auto.
  - right; left. apply (Hkey "ook!"%string (lit "ook.")); [done|]. apply Hmark; auto.
  - left. apply (Hkey "ook."%string (lit "ook!")); [done|]. apply Hmark; auto.
  - right; left. apply (Hkey "ook!"%string (lit "ook?")); [done|]. apply Hmark; auto.
  - right; right. apply (Hkey "ook?"%string (lit "ook!")); [done|]. apply Hmark; auto.
Qed.

Lemma pair_tokens_no_marker tokens :
  Forall (fun t => Forall (fun c => isspace c = false) t) tokens ->
  Forall (fun t => t <> lit "ook." /\ t <> lit "ook!" /\ t <> lit "ook?") tokens ->
  pair_tokens tokens = [].
Proof.
  induction tokens as [|t1 tokens IH]; [done|].
  intros [Hns Hrest]%Forall_cons [Hnm Hmark]%Forall_cons.
  destruct tokens as [|t2 rest]; [done|]. cbn [pair_tokens].
  destruct (ook_map !! (t1 ++ lit " " ++ t2)) as [instruction|] eqn:Hlook.
  - apply ook_map_first_token in Hlook; [|done].
    destruct Hnm as (Hn1 & Hn2 & Hn3). by destruct Hlook as [?|[?|?]].
  - by apply IH.
Qed.

(** Without a marker in the lower-cased text the transpiler has nothing
    to emit. *)
Lemma no_marker_no_code H text :
  count (str_lower H text) (lit "ook.") = 0%nat ->
  count (str_lower H text) (lit "ook!") = 0%nat ->
  count (str_lower H text) (lit "ook?") = 0%nat ->
  ook_to_brainfuck H text = None.
Proof.
  intros Hdot Hbang Hquest. unfold ook_to_brainfuck.
  assert (Htok : forall t, t ∈ tokens_of H text ->
            substr t (str_lower H text) /\ Forall (fun c => isspace c = false) t).
  { intros t Ht. apply split_from_token in Ht as [Hsub Hns]; [|constructor].
    split; [|done]. apply (substr_trans _ _ _ Hsub (strip_substr _)). }
  rewrite pair_tokens_no_marker; [done| |]; apply Forall_forall; intros t Ht;
    destruct (Htok t Ht) as [Hin Hns]; [done|].
  repeat split; intros ->; apply count_substr in Hin; done || lia.
Qed.

Lemma ook_to_brainfuck_Some H text c code :
  pair_tokens (tokens_of H text) = c :: code ->
  ook_to_brainfuck H text = Some (c :: code).
Proof. unfold ook_to_brainfuck. by intros ->. Qed.

(** ** Validator: one iteration *)

Lemma scan_step_None idx c s :
  scan_step idx c s = None <-> c = ord "]" /\ open_stack s = [].
Proof.
  unfold scan_step.
  destruct (negb (prints s) && (c =? ord "."))%N eqn:Hdot.
  - split; [discriminate|]. intros [-> _].
    apply andb_true_iff in Hdot as [_ Hdot]. discriminate.
  - destruct (N.eqb_spec c (ord "[")) as [->|Hopen].
    + split; [discriminate|]. intros [? _]. discriminate.
    + destruct (N.eqb_spec c (ord "]")) as [->|Hclose].
      * destruct (open_stack s); split; try discriminate; auto.
        intros [_ ?]. discriminate.
      * split; [discriminate|]. intros [? _]. contradiction.
Qed.

Lemma scan_step_Some idx c s s' :
  scan_step idx c s = Some s' ->
  legal_count s' = (if is_legal c then S (legal_count s) else legal_count s)
  /\ prints s' = prints s || (c =? ord ".")%N
  /\ ((c = ord "[" /\ open_stack s' = idx :: open_stack s
        /\ bracemap s' = bracemap s)
      \/ (c = ord "]" /\ exists p, open_stack s = p :: open_stack s'
           /\ bracemap s' = <[idx := p]> (<[p := idx]> (bracemap s)))
      \/ (c <> ord "[" /\ c <> ord "]" /\ open_stack s' = open_stack s
           /\ bracemap s' = bracemap s)).
Proof.
  unfold scan_step.
  destruct (negb (prints s) && (c =? ord "."))%N eqn:Hdot.
  - apply andb_true_iff in Hdot as [_ Hdot]. apply N.eqb_eq in Hdot as ->.
    intros [= <-]; simpl. rewrite orb_true_r.
    repeat split. right; right. repeat split; discriminate.
  - assert (Hp : prints s = prints s || (c =? ord ".")%N).
    { destruct (prints s); simpl in *; [done|]. by rewrite Hdot. }
    destruct (N.eqb_spec c (ord "[")) as [->|Hopen].
    { intros [= <-]; simpl. rewrite orb_false_r. repeat split. by left. }
    destruct (N.eqb_spec c (ord "]")) as [->|Hclose].
    { destruct (open_stack s) as [|p stack'] eqn:Hst; [discriminate|].
      intros [= <-]; simpl. rewrite orb_false_r. repeat split.
      right; left. split; [done|]. by exists p. }
    intros [= <-]; simpl. repeat split; [done|]. right; right. done.
Qed.

(** ** Validator: the whole scan *)

Lemma scan_loop_app l1 l2 idx s :
  scan_loop (l1 ++ l2) idx s =
  match scan_loop l1 idx s with
  | Some s1 => scan_loop l2 (idx + length l1) s1
  | None => None
  end.
Proof.
  revert idx s. induction l1 as [|c l1 IH]; intros idx s; simpl.
  - by rewrite Nat.add_0_r.
  - destruct (scan_step idx c s) as [s1|]; [|done].
    rewrite IH. by replace (S idx + length l1)%nat with (idx + S (length l1))%nat by lia.
Qed.

(** The stack height follows the nesting depth, and the scan gives up
    exactly where the depth would go below zero. *)
Lemma scan_loop_depth program idx s :
  match scan_loop program idx s with
  | Some s' => depth_after (length (open_stack s)) program = Some (length (open_stack s'))
  | None => depth_after (length (open_stack s)) program = None
  end.
Proof.
  revert idx s. induction program as [|c rest IH]; intros idx s; simpl; [done|].
  destruct (scan_step idx c s) as [s1|] eqn:Hstep.
  - specialize (IH (S idx) s1).
    apply scan_step_Some in Hstep as (_ & _ & [(-> & Hst & _)|[(-> & p & Hst & _)|(Ho & Hc & Hst & _)]]).
    + simpl. by rewrite Hst in IH.
    + simpl. rewrite Hst. simpl. done.
    + apply N.eqb_neq in Ho, Hc. rewrite Ho, Hc. by rewrite Hst in IH.
  - apply scan_step_None in Hstep as [-> Hst]. by rewrite Hst.
Qed.

Lemma scan_loop_prints program idx s s' :
  scan_loop program idx s = Some s' ->
  prints s' = prints s || bool_decide (ord "." ∈ program).
Proof.
  revert idx s. induction program as [|c rest IH]; intros idx s; cbn [scan_loop].
  - intros [= <-]. rewrite bool_decide_eq_false_2; [by rewrite orb_false_r|].
    by intros ?%elem_of_nil.
  - destruct (scan_step idx c s) as [s1|] eqn:Hstep; [|done].
    intros Hrest. rewrite (IH _ _ Hrest).
    apply scan_step_Some in Hstep as (_ & -> & _).
    rewrite <- orb_assoc. f_equal.
    destruct (N.eqb_spec c (ord ".")) as [->|Hne]; cbn [orb].
    + symmetry. apply bool_decide_eq_true_2. by left.
    + apply bool_decide_ext. rewrite elem_of_cons. split; [by right|].
      intros [?|?]; [congruence|done].
Qed.

Lemma scan_loop_legal program idx s s' :
  scan_loop program idx s = Some s' ->
  (legal_count s' <= legal_count s + length program)%nat
  /\ ((legal_count s' = legal_count s + length program)%nat
      <-> Forall (fun c => is_legal c = true) program).
Proof.
  revert idx s. induction program as [|c rest IH]; intros idx s; simpl.
  - intros [= <-]. split; [lia|]. split; [constructor|lia].
  - destruct (scan_step idx c s) as [s1|] eqn:Hstep; [|done].
    intros Hrest. destruct (IH _ _ Hrest) as [Hle Hiff].
    apply scan_step_Some in Hstep as (Hlc & _).
    rewrite Forall_cons. destruct (is_legal c); rewrite Hlc in *.
    + split; [lia|]. rewrite <- Hiff. split; [intros; split; [done|lia]|intros [_ ?]; lia].
    + split; [lia|]. split; [lia|]. intros [? _]. done.
Qed.

(** The verdict of [bracemap_and_check] in terms of the reference notions. *)
Lemma is_brainfuck_iff program :
  (bracemap_and_check program).2 = true <->
  Forall (fun c => is_legal c = true) program
  /\ depth_after 0 program = Some 0%nat
  /\ ord "." ∈ program.
Proof.
  unfold bracemap_and_check.
  pose proof (scan_loop_depth program 0 scan_init) as Hdepth.
  destruct (scan_loop program 0 scan_init) as [s|] eqn:Hscan; simpl in *.
  - pose proof (scan_loop_legal _ _ _ _ Hscan) as [_ Hlegal].
    pose proof (scan_loop_prints _ _ _ _ Hscan) as Hprints. simpl in *.
    rewrite !andb_true_iff, !Nat.eqb_eq, Hlegal, Hprints, bool_decide_eq_true, Hdepth.
    split.
    + intros [[? ->] ?]. done.
    + intros (? & [= ->] & ?). done.
  - rewrite Hdepth. split; [done|]. by intros (_ & ? & _).
Qed.

(** ** Validator: the jump table *)

Lemma stack_ok_step idx c s s' :
  scan_step idx c s = Some s' ->
  stack_ok idx (open_stack s) -> stack_ok (S idx) (open_stack s').
Proof.
  intros Hstep [Hnd Hlt].
  assert (Hlt' : Forall (fun p => (p < S idx)%nat) (open_stack s)).
  { eapply Forall_impl; [exact Hlt|]. intros; simpl in *; lia. }
  apply scan_step_Some in Hstep
    as (_ & _ & [(_ & -> & _)|[(_ & p & Hst & _)|(_ & _ & -> & _)]]).
  - split.
    + apply NoDup_cons. split; [|done].
      intros Hin. rewrite Forall_forall in Hlt. specialize (Hlt _ Hin). lia.
    + constructor; [lia|done].
  - rewrite Hst in Hnd, Hlt'. apply NoDup_cons in Hnd as [_ Hnd].
    apply Forall_cons in Hlt' as [_ Hlt']. done.
  - done.
Qed.

(** Entries of positions already read and no longer open are final. *)
Lemma scan_loop_keeps rest idx s s' k :
  scan_loop rest idx s = Some s' ->
  (k < idx)%nat -> k ∉ open_stack s ->
  bracemap s' !! k = bracemap s !! k.
Proof.
  revert idx s. induction rest as [|c rest IH]; intros idx s; cbn [scan_loop].
  - by intros [= <-].
  - destruct (scan_step idx c s) as [s1|] eqn:Hstep; [|done].
    intros Hrest Hk Hnot.
    apply scan_step_Some in Hstep
      as (_ & _ & [(_ & Hst & Hbm)|[(_ & p & Hst & Hbm)|(_ & _ & Hst & Hbm)]]).
    + rewrite (IH _ _ Hrest), Hbm; [done|lia|].
      rewrite Hst, not_elem_of_cons. split; [lia|done].
    + rewrite Hst, not_elem_of_cons in Hnot. destruct Hnot as [Hkp Hnot].
      rewrite (IH _ _ Hrest), Hbm; [|lia|done].
      rewrite !lookup_insert_ne; [done|congruence|lia].
    + rewrite (IH _ _ Hrest), Hbm; [done|lia|]. by rewrite Hst.
Qed.

Lemma find_close_spec d rest pos j :
  find_close d rest pos = Some j ->
  (pos <= j)%nat /\ rest !! (j - pos)%nat = Some (ord "]").
Proof.
  revert d pos. induction rest as [|c rest IH]; intros d pos; cbn [find_close]; [done|].
  assert (Hrec : forall d', find_close d' rest (S pos) = Some j ->
            (pos <= j)%nat /\ (c :: rest) !! (j - pos)%nat = Some (ord "]")).
  { intros d' [Hle Hat]%IH. split; [lia|].
    replace (j - pos)%nat with (S (j - S pos)) by lia. done. }
  destruct (N.eqb_spec c (ord "[")); [by apply Hrec|].
  destruct (N.eqb_spec c (ord "]")) as [->|]; [|by apply Hrec].
  destruct d; [|by apply Hrec].
  intros [= <-]. split; [lia|]. by rewrite Nat.sub_diag.
Qed.

(** An open position at height [length pre] of the stack is closed by the
    bracket [find_close] finds, or stays open. *)
Lemma scan_loop_closes rest idx s s' pre p post :
  scan_loop rest idx s = Some s' ->
  stack_ok idx (open_stack s) ->
  open_stack s = pre ++ p :: post ->
  match find_close (length pre) rest idx with
  | Some j => bracemap s' !! p = Some j /\ bracemap s' !! j = Some p
  | None => exists pre', open_stack s' = pre' ++ p :: post
  end.
Proof.
  revert idx s pre. induction rest as [|c rest IH]; intros idx s pre;
    cbn [scan_loop find_close].
  - intros [= <-] _ Hst. by exists pre.
  - destruct (scan_step idx c s) as [s1|] eqn:Hstep; [|done].
    intros Hrest Hok Hst.
    pose proof (stack_ok_step _ _ _ _ Hstep Hok) as Hok1.
    apply scan_step_Some in Hstep
      as (_ & _ & [(-> & Hst1 & Hbm)|[(-> & q & Hst1 & Hbm)|(Ho & Hc & Hst1 & Hbm)]]).
    + cbn. apply (IH _ _ (idx :: pre) Hrest Hok1). by rewrite Hst1, Hst.
    + cbn. destruct pre as [|q' pre]; simpl in Hst |- *.
      * assert (q = p /\ open_stack s1 = post) as [-> Hpost] by (split; congruence).
        destruct Hok as [Hnd Hlt]. rewrite Hst in Hnd, Hlt.
        apply NoDup_cons in Hnd as [Hnotin _].
        apply Forall_cons in Hlt as [Hp Hlt].
        rewrite !(scan_loop_keeps _ _ _ _ _ Hrest), Hbm.
        -- rewrite lookup_insert_eq, lookup_insert_ne, lookup_insert_eq by lia. done.
        -- lia.
        -- rewrite Hpost. intros Hin. rewrite Forall_forall in Hlt.
           specialize (Hlt _ Hin). lia.
        -- lia.
        -- by rewrite Hpost.
      * apply (IH _ _ pre Hrest Hok1). congruence.
    + apply N.eqb_neq in Ho, Hc. rewrite Ho, Hc.
      apply (IH _ _ pre Hrest Hok1). by rewrite Hst1.
Qed.

(** Every opening bracket read by a completed scan is either entered in
    the table, both ways, with its nearest matching close, or still open. *)
Lemma scan_loop_open program idx s s' i :
  scan_loop program idx s = Some s' ->
  stack_ok idx (open_stack s) ->
  program !! i = Some (ord "[") ->
  match find_close 0 (drop (S i) program) (S (idx + i)) with
  | Some j => bracemap s' !! (idx + i)%nat = Some j
              /\ bracemap s' !! j = Some (idx + i)%nat
  | None => (idx + i)%nat ∈ open_stack s'
  end.
Proof.
  revert idx s i. induction program as [|c rest IH]; intros idx s i;
    cbn [scan_loop]; [done|].
  destruct (scan_step idx c s) as [s1|] eqn:Hstep; [|done].
  intros Hrest Hok Hat.
  pose proof (stack_ok_step _ _ _ _ Hstep Hok) as Hok1.
  destruct i as [|i]; cbn in Hat.
  - injection Hat as ->. rewrite Nat.add_0_r. cbn [drop].
    apply scan_step_Some in Hstep
      as (_ & _ & [(_ & Hst1 & _)|[(? & _)|(? & _)]]); try done.
    pose proof (scan_loop_closes rest (S idx) s1 s' [] idx (open_stack s)
                  Hrest Hok1 Hst1) as Hclose.
    cbn [length] in Hclose. rewrite drop_0.
    destruct (find_close 0 rest (S idx)); [done|].
    destruct Hclose as [pre' ->]. apply elem_of_app. right. by left.
  - cbn [drop]. replace (idx + S i)%nat with (S idx + i)%nat by lia.
    by apply (IH _ s1).
Qed.

(** Every closing bracket read by a completed scan has an entry. *)
Lemma scan_loop_close program idx s s' i :
  scan_loop program idx s = Some s' ->
  stack_ok idx (open_stack s) ->
  program !! i = Some (ord "]") ->
  is_Some (bracemap s' !! (idx + i)%nat).
Proof.
  revert idx s i. induction program as [|c rest IH]; intros idx s i;
    cbn [scan_loop]; [done|].
  destruct (scan_step idx c s) as [s1|] eqn:Hstep; [|done].
  intros Hrest Hok Hat.
  pose proof (stack_ok_step _ _ _ _ Hstep Hok) as Hok1.
  destruct i as [|i]; cbn in Hat.
  - injection Hat as ->. rewrite Nat.add_0_r.
    apply scan_step_Some in Hstep
      as (_ & _ & [(? & _)|[(_ & p & Hst & Hbm)|(_ & ? & _)]]); try done.
    rewrite (scan_loop_keeps _ _ _ _ _ Hrest), Hbm, lookup_insert_eq; [done|lia|].
    intros Hin. destruct Hok as [_ Hlt]. rewrite Hst, Forall_forall in Hlt.
    assert (idx < idx)%nat; [|lia]. apply Hlt. by right.
  - replace (idx + S i)%nat with (S idx + i)%nat by lia.
    by apply (IH _ s1).
Qed.

Lemma table_complete program table i :
  bracemap_and_check program = (Some table, true) ->
  program !! i = Some (ord "[") \/ program !! i = Some (ord "]") ->
  is_Some (table !! i).
Proof.
  unfold bracemap_and_check.
  destruct (scan_loop program 0 scan_init) as [s|] eqn:Hscan; [|done].
  intros [= <- Hvalid] Hat.
  assert (Hok : stack_ok 0 (open_stack scan_init)).
  { split; [apply NoDup_nil_2|constructor]. }
  apply andb_true_iff in Hvalid as [[_ Hempty]%andb_true_iff _].
  apply Nat.eqb_eq, length_zero_iff_nil in Hempty.
  destruct Hat as [Hat|Hat].
  - pose proof (scan_loop_open _ _ _ _ _ Hscan Hok Hat) as Hopen. cbn in Hopen.
    destruct (find_close 0 (drop (S i) program) (S i)).
    + destruct Hopen as [-> _]. done.
    + rewrite Hempty in Hopen. by apply elem_of_nil in Hopen.
  - apply (scan_loop_close _ _ _ _ _ Hscan Hok Hat).
Qed.

(** ** Indexing *)

Lemma index_nonneg len i :
  0 <= i < Z.of_nat len -> index len i = Some (Z.to_nat i).
Proof.
  intros Hi. unfold index.
  destruct (Z.leb_spec 0 i), (Z.ltb_spec i (Z.of_nat len)); simpl; done || lia.
Qed.

Lemma getitem_nonneg {A} (l : list A) i v :
  0 <= i -> l !! Z.to_nat i = Some v -> getitem l i = Ok v.
Proof.
  intros Hi Hat. unfold getitem. rewrite index_nonneg, Hat; [done|].
  apply lookup_lt_Some in Hat. lia.
Qed.

Lemma getitem_nat {A} (l : list A) (k : nat) v :
  l !! k = Some v -> getitem l (Z.of_nat k) = Ok v.
Proof. intros Hat. apply getitem_nonneg; [lia|]. by rewrite Nat2Z.id. Qed.

Lemma getitem_nat_inv {A} (l : list A) (k : nat) v :
  getitem l (Z.of_nat k) = Ok v -> l !! k = Some v.
Proof.
  unfold getitem, index.
  destruct ((0 <=? Z.of_nat k) && (Z.of_nat k <? Z.of_nat (length l))).
  - rewrite Nat2Z.id. destruct (l !! k); [|done]. by intros [= ->].
  - destruct ((- Z.of_nat (length l) <=? Z.of_nat k) && (Z.of_nat k <? 0)) eqn:Hneg;
      [|done].
    apply andb_true_iff in Hneg as [_ Hneg]. apply Z.ltb_lt in Hneg. lia.
Qed.

Lemma setitem_nonneg {A} (l : list A) i x :
  0 <= i < Z.of_nat (length l) -> setitem l i x = Ok (<[Z.to_nat i := x]> l).
Proof. intros Hi. unfold setitem. by rewrite index_nonneg. Qed.

Lemma setitem_length {A} (l l' : list A) i x :
  setitem l i x = Ok l' -> length l' = length l.
Proof.
  unfold setitem. destruct (index (length l) i); [|done].
  intros [= <-]. apply length_insert.
Qed.

Lemma getitem_setitem {A} (l : list A) i v x :
  getitem l i = Ok v ->
  exists l', setitem l i x = Ok l' /\ getitem l' i = Ok x
             /\ length l' = length l.
Proof.
  unfold getitem, setitem. destruct (index (length l) i) as [k|] eqn:Hi; [|done].
  destruct (l !! k) as [w|] eqn:Hk; [|done]. intros _.
  exists (<[k:=x]> l). rewrite length_insert, Hi.
  rewrite list_lookup_insert_eq; [done|]. by apply lookup_lt_Some in Hk.
Qed.

Lemma chr_byte v : 0 <= v <= 255 -> chr v = Ok (Z.to_N v) /\ (Z.to_N v < 256)%N.
Proof.
  intros Hv. unfold chr.
  destruct (Z.leb_spec 0 v), (Z.ltb_spec v 1114112); simpl; (split; [done|lia]) || lia.
Qed.

(** ** Tape machine: one step *)

(** The cell under the tape pointer of a well-formed tape. *)
Lemma tape_ok_cell m :
  tape_ok m ->
  exists v, memory m !! Z.to_nat (memptr m) = Some v /\ 0 <= v <= 255
            /\ getitem (memory m) (memptr m) = Ok v.
Proof.
  intros [Hptr Hcells].
  destruct (lookup_lt_is_Some_2 (memory m) (Z.to_nat (memptr m))) as [v Hv]; [lia|].
  exists v. split; [done|]. split.
  - rewrite Forall_forall in Hcells. apply Hcells.
    apply list_elem_of_lookup. eauto.
  - apply getitem_nonneg; [lia|done].
Qed.

Lemma tape_ok_write m x :
  tape_ok m -> 0 <= x <= 255 ->
  setitem (memory m) (memptr m) x = Ok (<[Z.to_nat (memptr m) := x]> (memory m))
  /\ tape_ok (set_memory m (<[Z.to_nat (memptr m) := x]> (memory m))).
Proof.
  intros [Hptr Hcells] Hx. split; [by apply setitem_nonneg|].
  split; cbn; [by rewrite length_insert|].
  apply Forall_insert; done.
Qed.

(** On a well-formed tape the only statement of the dispatch that can
    raise is the jump-table lookup, and the tape stays well formed. *)
Lemma dispatch_tape_ok bracemap cmd m :
  tape_ok m -> output_ok m ->
  match dispatch bracemap cmd m with
  | Ok m' => tape_ok m' /\ output_ok m'
  | Raise e =>
      (cmd = ord "[" \/ cmd = ord "]")
      /\ dict_getitem bracemap (codeptr m) = Raise e
  end.
Proof.
  intros Hok Hout. destruct (tape_ok_cell m Hok) as (v & Hat & Hv & Hget).
  unfold dispatch, open_taken, close_taken.
  destruct (N.eqb_spec cmd (ord "+")) as [->|Hplus].
  { rewrite Hget. cbn.
    destruct (tape_ok_write m (if v <? 255 then v + 1 else 0) Hok) as [-> Hok'].
    - destruct (Z.ltb_spec v 255); lia.
    - cbn. split; [exact Hok'|exact Hout]. }
  destruct (N.eqb_spec cmd (ord "-")) as [->|Hminus].
  { rewrite Hget. cbn.
    destruct (tape_ok_write m (if 0 <? v then v - 1 else 255) Hok) as [-> Hok'].
    - destruct (Z.ltb_spec 0 v); lia.
    - cbn. split; [exact Hok'|exact Hout]. }
  destruct (N.eqb_spec cmd (ord ">")) as [->|Hright].
  { cbn. destruct Hok as [Hptr Hcells].
    destruct (Z.eqb_spec (memptr m) (Z.of_nat (length (memory m)) - 1));
      (split; [|exact Hout]); split; cbn.
    - rewrite length_app. cbn. lia.
    - apply Forall_app. split; [done|]. constructor; [lia|constructor].
    - lia.
    - done. }
  destruct (N.eqb_spec cmd (ord "<")) as [->|Hleft].
  { destruct Hok as [Hptr Hcells].
    destruct (Z.eqb_spec (memptr m) 0); cbn; (split; [|exact Hout]);
      split; cbn; done || lia. }
  assert (Hjump : match (target ← dict_getitem bracemap (codeptr m);
                         mret (set_codeptr m target)) with
                  | Ok m' => tape_ok m' /\ output_ok m'
                  | Raise e => dict_getitem bracemap (codeptr m) = Raise e
                  end).
  { destruct (dict_getitem bracemap (codeptr m)); cbn; [|done].
    split; [exact Hok|exact Hout]. }
  destruct (N.eqb_spec cmd (ord "[")) as [->|Hopen].
  { rewrite Hget. cbn. destruct (v =? 0); cbn.
    - destruct (target ← dict_getitem bracemap (codeptr m); mret (set_codeptr m target));
        [done|]. split; [by left|done].
    - done. }
  cbn. destruct (N.eqb_spec cmd (ord "]")) as [->|Hclose].
  { rewrite Hget. cbn. destruct (v =? 0); cbn.
    - done.
    - destruct (target ← dict_getitem bracemap (codeptr m); mret (set_codeptr m target));
        [done|]. split; [by right|done]. }
  cbn. destruct (N.eqb_spec cmd (ord ".")) as [->|Hdot].
  { rewrite Hget. cbn. destruct (chr_byte v Hv) as [-> Hc]. cbn.
    split; [exact Hok|]. apply Forall_app. split; [done|]. by constructor. }
  destruct (N.eqb_spec cmd (ord ",")) as [->|Hcomma]; [|done].
  destruct (tape_ok_write m 0 Hok) as [-> Hok']; [lia|].
  cbn. split; [exact Hok'|exact Hout].
Qed.

Lemma dispatch_codeptr bracemap cmd m m1 :
  dispatch bracemap cmd m = Ok m1 ->
  (jumps cmd m ->
   exists target, dict_getitem bracemap (codeptr m) = Ok target
                  /\ codeptr m1 = target)
  /\ (~ jumps cmd m -> codeptr m1 = codeptr m).
Proof.
  assert (Hnot : cmd <> ord "[" -> cmd <> ord "]" ->
            forall m', codeptr m' = codeptr m ->
            (jumps cmd m ->
             exists target, dict_getitem bracemap (codeptr m) = Ok target
                            /\ codeptr m' = target)
            /\ (~ jumps cmd m -> codeptr m' = codeptr m)).
  { intros Ho Hc m' Hm'. split; [|done]. intros (v0 & _ & [[? _]|[? _]]); done. }
  unfold dispatch, open_taken, close_taken.
  destruct (N.eqb_spec cmd (ord "+")) as [->|Hplus].
  { destruct (getitem _ _); cbn; [|done].
    destruct (setitem _ _ _); cbn; [|done]. intros [= <-]. by apply Hnot. }
  destruct (N.eqb_spec cmd (ord "-")) as [->|Hminus].
  { destruct (getitem _ _); cbn; [|done].
    destruct (setitem _ _ _); cbn; [|done]. intros [= <-]. by apply Hnot. }
  destruct (N.eqb_spec cmd (ord ">")) as [->|Hright].
  { cbn. intros [= <-]. apply Hnot; [done..|]. by destruct (_ =? _). }
  destruct (N.eqb_spec cmd (ord "<")) as [->|Hleft].
  { destruct (_ =? _); cbn; intros [= <-]; by apply Hnot. }
  destruct (N.eqb_spec cmd (ord "[")) as [->|Hopen].
  { destruct (getitem (memory m) (memptr m)) as [v|] eqn:Hget; cbn; [|done].
    destruct (Z.eqb_spec v 0) as [->|Hv]; cbn.
    - destruct (dict_getitem bracemap (codeptr m)) as [target|]; cbn; [|done].
      intros [= <-]. split; [by exists target|].
      intros Hno. exfalso. apply Hno. exists 0. auto.
    - intros [= <-]. split; [|done]. unfold jumps. rewrite Hget.
      intros (v0 & [= <-] & [[_ ?]|[? _]]); done. }
  cbn. destruct (N.eqb_spec cmd (ord "]")) as [->|Hclose].
  { destruct (getitem (memory m) (memptr m)) as [v|] eqn:Hget; cbn; [|done].
    destruct (Z.eqb_spec v 0) as [->|Hv]; cbn.
    - intros [= <-]. split; [|done]. unfold jumps. rewrite Hget.
      intros (v0 & [= <-] & [[? _]|[_ ?]]); done.
    - destruct (dict_getitem bracemap (codeptr m)) as [target|]; cbn; [|done].
      intros [= <-]. split; [by exists target|].
      intros Hno. exfalso. apply Hno. exists v. auto. }
  cbn. destruct (N.eqb_spec cmd (ord ".")) as [->|Hdot].
  { destruct (getitem _ _) as [v|]; cbn; [|done].
    destruct (chr v); cbn; [|done]. intros [= <-]. by apply Hnot. }
  destruct (N.eqb_spec cmd (ord ",")) as [->|Hcomma].
  { destruct (setitem _ _ _); cbn; [|done]. intros [= <-]. by apply Hnot. }
  intros [= <-]. by apply Hnot.
Qed.

(** The tape keeps its cells; only [>] on the last cell adds one, a zero
    at the right end. *)
Lemma dispatch_memory bracemap cmd m m1 :
  dispatch bracemap cmd m = Ok m1 ->
  (length (memory m) <= length (memory m1))%nat
  /\ (length (memory m1) <> length (memory m) ->
      cmd = ord ">" /\ memory m1 = memory m ++ [0]).
Proof.
  unfold dispatch, open_taken, close_taken.
  destruct (N.eqb_spec cmd (ord "+")) as [->|Hplus].
  { destruct (getitem _ _); cbn; [|done].
    destruct (setitem _ _ _) eqn:Hset; cbn; [|done]. intros [= <-]. cbn.
    apply setitem_length in Hset. lia. }
  destruct (N.eqb_spec cmd (ord "-")) as [->|Hminus].
  { destruct (getitem _ _); cbn; [|done].
    destruct (setitem _ _ _) eqn:Hset; cbn; [|done]. intros [= <-]. cbn.
    apply setitem_length in Hset. lia. }
  destruct (N.eqb_spec cmd (ord ">")) as [->|Hright].
  { cbn. intros [= <-]. destruct (_ =? _); cbn; [|lia].
    rewrite length_app. cbn. split; [lia|done]. }
  destruct (N.eqb_spec cmd (ord "<")) as [->|Hleft].
  { destruct (_ =? _); cbn; intros [= <-]; cbn; lia. }
  destruct (N.eqb_spec cmd (ord "[")) as [->|Hopen].
  { destruct (getitem _ _) as [v|]; cbn; [|done].
    destruct (v =? 0); cbn; [|intros [= <-]; lia].
    destruct (dict_getitem _ _); cbn; [|done]. intros [= <-]. cbn. lia. }
  cbn. destruct (N.eqb_spec cmd (ord "]")) as [->|Hclose].
  { destruct (getitem _ _) as [v|]; cbn; [|done].
    destruct (v =? 0); cbn; [intros [= <-]; lia|].
    destruct (dict_getitem _ _); cbn; [|done]. intros [= <-]. cbn. lia. }
  cbn. destruct (N.eqb_spec cmd (ord ".")) as [->|Hdot].
  { destruct (getitem _ _) as [v|]; cbn; [|done].
    destruct (chr v); cbn; [|done]. intros [= <-]. cbn. lia. }
  destruct (N.eqb_spec cmd (ord ",")) as [->|Hcomma].
  { destruct (setitem _ _ _) eqn:Hset; cbn; [|done]. intros [= <-]. cbn.
    apply setitem_length in Hset. lia. }
  intros [= <-]. lia.
Qed.

Lemma dispatch_right bracemap m :
  dispatch bracemap (ord ">") m =
  Ok (let m' := if memptr m =? Z.of_nat (length (memory m)) - 1
                then set_memory m (memory m ++ [0]) else m in
      set_memptr m' (memptr m' + 1)).
Proof. reflexivity. Qed.

Lemma dispatch_left bracemap m :
  dispatch bracemap (ord "<") m =
  Ok (if memptr m =? 0
      then set_memptr m (Z.of_nat (length (memory m)) - 1)
      else set_memptr m (memptr m - 1)).
Proof. unfold dispatch. cbn. by destruct (memptr m =? 0). Qed.

Lemma step_at brainfuck_code bracemap m cmd :
  brainfuck_code !! codeptr m = Some cmd ->
  step brainfuck_code bracemap m =
  (m' ← dispatch bracemap cmd m; mret (set_codeptr m' (S (codeptr m')))).
Proof. intros Hcmd. unfold step. by rewrite (getitem_nat _ _ _ Hcmd). Qed.

(** A step that does not raise has read its instruction. *)
Lemma step_Ok_cmd brainfuck_code bracemap m m' :
  step brainfuck_code bracemap m = Ok m' ->
  exists cmd, brainfuck_code !! codeptr m = Some cmd.
Proof.
  unfold step.
  destruct (getitem brainfuck_code (Z.of_nat (codeptr m))) as [cmd|] eqn:Hget; [|done].
  intros _. exists cmd. by apply getitem_nat_inv.
Qed.

Lemma step_tape_ok brainfuck_code bracemap m :
  tape_ok m -> output_ok m ->
  (codeptr m < length brainfuck_code)%nat ->
  match step brainfuck_code bracemap m with
  | Ok m' => tape_ok m' /\ output_ok m'
  | Raise e =>
      exists cmd, brainfuck_code !! codeptr m = Some cmd
                  /\ (cmd = ord "[" \/ cmd = ord "]")
                  /\ dict_getitem bracemap (codeptr m) = Raise e
  end.
Proof.
  intros Hok Hout Hlt.
  destruct (lookup_lt_is_Some_2 brainfuck_code (codeptr m) Hlt) as [cmd Hcmd].
  unfold step. rewrite (getitem_nat _ _ _ Hcmd). cbn.
  pose proof (dispatch_tape_ok bracemap cmd m Hok Hout) as Hd.
  destruct (dispatch bracemap cmd m) as [m1|e]; cbn.
  - exact Hd.
  - exists cmd. by destruct Hd.
Qed.

(** What [+] and [-] leave in the cell they find [v] in. *)
Lemma step_plus_cell brainfuck_code bracemap m v :
  brainfuck_code !! codeptr m = Some (ord "+") ->
  getitem (memory m) (memptr m) = Ok v ->
  exists m', step brainfuck_code bracemap m = Ok m'
             /\ getitem (memory m') (memptr m') = Ok (if v <? 255 then v + 1 else 0).
Proof.
  intros Hcmd Hget. rewrite (step_at _ _ _ _ Hcmd).
  change (dispatch bracemap (ord "+") m) with
    (v ← getitem (memory m) (memptr m);
     memory' ← setitem (memory m) (memptr m) (if v <? 255 then v + 1 else 0);
     mret (set_memory m memory')).
  rewrite Hget. cbn [mbind res_bind].
  destruct (getitem_setitem _ _ _ (if v <? 255 then v + 1 else 0) Hget)
    as (l' & -> & Hget' & _).
  cbn. eauto.
Qed.

Lemma step_minus_cell brainfuck_code bracemap m v :
  brainfuck_code !! codeptr m = Some (ord "-") ->
  getitem (memory m) (memptr m) = Ok v ->
  exists m', step brainfuck_code bracemap m = Ok m'
             /\ getitem (memory m') (memptr m') = Ok (if 0 <? v then v - 1 else 255).
Proof.
  intros Hcmd Hget. rewrite (step_at _ _ _ _ Hcmd).
  change (dispatch bracemap (ord "-") m) with
    (v ← getitem (memory m) (memptr m);
     memory' ← setitem (memory m) (memptr m) (if 0 <? v then v - 1 else 255);
     mret (set_memory m memory')).
  rewrite Hget. cbn [mbind res_bind].
  destruct (getitem_setitem _ _ _ (if 0 <? v then v - 1 else 255) Hget)
    as (l' & -> & Hget' & _).
  cbn. eauto.
Qed.

Lemma reachable_tape_ok brainfuck_code bracemap m :
  reachable brainfuck_code bracemap m -> tape_ok m /\ output_ok m.
Proof.
  induction 1 as [|m m' _ [Hok Hout] Hlt Hstep].
  - split; [|constructor]. split; [cbn; lia|].
    change (memory machine_init) with (replicate 100%nat 0).
    apply Forall_replicate. lia.
  - pose proof (step_tape_ok brainfuck_code bracemap m Hok Hout Hlt) as Hs.
    by rewrite Hstep in Hs.
Qed.

(** ** Tape machine: the loop *)

Section Loop.

Context (H : host) (brainfuck_code : str) (bracemap : option (gmap nat nat)).

Lemma run_done fuel n m :
  (length brainfuck_code <= codeptr m)%nat ->
  run H brainfuck_code bracemap fuel n m = Returned (Some (result m)).
Proof.
  intros Hge. destruct fuel; cbn [run];
    destruct (Nat.ltb_spec (codeptr m) (length brainfuck_code)); done || lia.
Qed.

Lemma run_timeout fuel n m :
  (codeptr m < length brainfuck_code)%nat ->
  timed_out (time_time H 0) (time_time H (S n)) = true ->
  run H brainfuck_code bracemap (S fuel) n m = Returned None.
Proof.
  intros Hlt Hout. cbn [run].
  destruct (Nat.ltb_spec (codeptr m) (length brainfuck_code)); [|lia].
  by rewrite Hout.
Qed.

Lemma run_step fuel n m :
  (codeptr m < length brainfuck_code)%nat ->
  timed_out (time_time H 0) (time_time H (S n)) = false ->
  run H brainfuck_code bracemap (S fuel) n m =
  match step brainfuck_code bracemap m with
  | Ok m' => run H brainfuck_code bracemap fuel (S n) m'
  | Raise e => Raised e
  end.
Proof.
  intros Hlt Hout. cbn [run].
  destruct (Nat.ltb_spec (codeptr m) (length brainfuck_code)); [|lia].
  by rewrite Hout.
Qed.

(** Once some reading is past the deadline, that many units of fuel are
    enough for the loop to end. *)
Lemma run_ends_by_deadline k fuel n m :
  timed_out (time_time H 0) (time_time H k) = true ->
  (n < k)%nat -> (k - n <= fuel)%nat ->
  run H brainfuck_code bracemap fuel n m <> OutOfFuel.
Proof.
  intros Hk. revert n m. induction fuel as [|fuel IH]; intros n m Hn Hfuel; [lia|].
  destruct (Nat.ltb_spec (codeptr m) (length brainfuck_code)) as [Hlt|Hge].
  - destruct (timed_out (time_time H 0) (time_time H (S n))) eqn:Hout.
    + by rewrite run_timeout.
    + rewrite run_step by done.
      destruct (step brainfuck_code bracemap m) as [m'|e]; [|done].
      apply IH; [|lia].
      destruct (decide (S n = k)) as [<-|]; [congruence|lia].
  - by rewrite run_done.
Qed.

(** An output the loop returns is the output of a machine that ran off
    the end of the program. *)
Lemma run_returns_whole fuel n m s :
  reachable brainfuck_code bracemap m ->
  run H brainfuck_code bracemap fuel n m = Returned (Some s) ->
  exists m', reachable brainfuck_code bracemap m'
             /\ (length brainfuck_code <= codeptr m')%nat
             /\ result m' = s.
Proof.
  revert n m. induction fuel as [|fuel IH]; intros n m Hreach.
  all: destruct (Nat.ltb_spec (codeptr m) (length brainfuck_code)) as [Hlt|Hge];
    [|rewrite run_done by done; intros [= <-]; by exists m].
  - cbn [run]. by destruct (Nat.ltb_spec (codeptr m) (length brainfuck_code)); [|lia].
  - destruct (timed_out (time_time H 0) (time_time H (S n))) eqn:Hto.
    + by rewrite run_timeout.
    + rewrite run_step by done.
      destruct (step brainfuck_code bracemap m) as [m'|e] eqn:Hstep; [|done].
      apply IH. by apply (reach_step _ _ m m').
Qed.

End Loop.

(** ** Tape machine: accepted programs *)

(** A loop that has not raised ends with no result or with the whole
    output, whatever the fuel. *)
Lemma run_safe H brainfuck_code table fuel n m :
  bracemap_and_check brainfuck_code = (Some table, true) ->
  tape_ok m -> output_ok m ->
  match run H brainfuck_code (Some table) fuel n m with
  | Returned (Some s) => Forall (fun c => (c < 256)%N) s
  | Returned None => True
  | Raised _ => False
  | OutOfFuel => True
  end.
Proof.
  intros Hvalid. revert n m. induction fuel as [|fuel IH]; intros n m Hok Hout.
  all: destruct (Nat.ltb_spec (codeptr m) (length brainfuck_code)) as [Hlt|Hge];
    [|by rewrite run_done].
  - cbn [run]. by destruct (Nat.ltb_spec (codeptr m) (length brainfuck_code)); [|lia].
  - destruct (timed_out (time_time H 0) (time_time H (S n))) eqn:Hto.
    + by rewrite run_timeout.
    + rewrite run_step by done.
      pose proof (step_tape_ok brainfuck_code (Some table) m Hok Hout Hlt) as Hs.
      destruct (step brainfuck_code (Some table) m) as [m'|e].
      * destruct Hs. by apply IH.
      * destruct Hs as (cmd & Hcmd & Hbr & Hget).
        assert (is_Some (table !! codeptr m)) as [t Ht].
        { apply (table_complete brainfuck_code); [done|].
          destruct Hbr as [->| ->]; auto. }
        cbn in Hget. by rewrite Ht in Hget.
Qed.

(** ** Tape machine: straight-line programs *)

Lemma incr_mod_256 acc :
  (if acc mod 256 <? 255 then acc mod 256 + 1 else 0) = (acc + 1) mod 256.
Proof. destruct (Z.ltb_spec (acc mod 256) 255); Z.div_mod_to_equations; lia. Qed.

Lemma decr_mod_256 acc :
  (if 0 <? acc mod 256 then acc mod 256 - 1 else 255) = (acc - 1) mod 256.
Proof. destruct (Z.ltb_spec 0 (acc mod 256)); Z.div_mod_to_equations; lia. Qed.

(** The loop on a suffix of [+], [-] and [.] whose cell holds
    [acc mod 256]: the output is the one arithmetic predicts. *)
Lemma run_straight H bracemap brainfuck_code suffix :
  forall prefix m n fuel acc,
    brainfuck_code = prefix ++ suffix ->
    codeptr m = length prefix ->
    tape_ok m ->
    memory m !! Z.to_nat (memptr m) = Some (acc mod 256) ->
    Forall (fun c => c = ord "+" \/ c = ord "-" \/ c = ord ".") suffix ->
    (forall k, (n < k <= n + length suffix)%nat ->
               timed_out (time_time H 0) (time_time H k) = false) ->
    (length suffix <= fuel)%nat ->
    run H brainfuck_code bracemap fuel n m
    = Returned (Some (result m ++ predicted acc suffix)).
Proof.
  induction suffix as [|c suffix IH];
    intros prefix m n fuel acc Hcode Hptr Hok Hcell Hops Hclock Hfuel.
  - rewrite run_done; [by rewrite app_nil_r|].
    rewrite Hcode, Hptr, length_app. cbn. lia.
  - cbn [length] in *. destruct fuel as [|fuel]; [lia|].
    assert (Hlt : (codeptr m < length brainfuck_code)%nat).
    { rewrite Hcode, Hptr, length_app. cbn. lia. }
    assert (Hcmd : brainfuck_code !! codeptr m = Some c).
    { rewrite Hcode, Hptr. by rewrite list_lookup_middle. }
    rewrite run_step; [|done|apply Hclock; lia].
    rewrite (step_at _ _ _ _ Hcmd).
    apply Forall_cons in Hops as [Hc Hops].
    assert (Hget : getitem (memory m) (memptr m) = Ok (acc mod 256)).
    { apply getitem_nonneg; [destruct Hok; lia|done]. }
    assert (Hnext : forall m', codeptr m' = codeptr m ->
              codeptr (set_codeptr m' (S (codeptr m'))) = length (prefix ++ [c])).
    { intros m' Hm'. cbn. rewrite length_app, Hm', Hptr. cbn. lia. }
    assert (Hcode' : brainfuck_code = (prefix ++ [c]) ++ suffix).
    { by rewrite <- app_assoc. }
    assert (Hbyte : 0 <= acc mod 256 <= 255) by (Z.div_mod_to_equations; lia).
    destruct Hc as [->|[->| ->]].
    + change (dispatch bracemap (ord "+") m) with
        (v ← getitem (memory m) (memptr m);
         memory' ← setitem (memory m) (memptr m) (if v <? 255 then v + 1 else 0);
         mret (set_memory m memory')).
      rewrite Hget. cbn [mbind res_bind]. rewrite incr_mod_256.
      destruct (tape_ok_write m ((acc + 1) mod 256) Hok) as [-> Hok'];
        [Z.div_mod_to_equations; lia|].
      cbn [mbind res_bind mret res_ret].
      rewrite (IH (prefix ++ [ord "+"]) _ (S n) fuel (acc + 1)); try done.
      * by apply Hnext.
      * cbn. apply list_lookup_insert_eq. destruct Hok. lia.
      * intros k Hk. apply Hclock. lia.
      * lia.
    + change (dispatch bracemap (ord "-") m) with
        (v ← getitem (memory m) (memptr m);
         memory' ← setitem (memory m) (memptr m) (if 0 <? v then v - 1 else 255);
         mret (set_memory m memory')).
      rewrite Hget. cbn [mbind res_bind]. rewrite decr_mod_256.
      destruct (tape_ok_write m ((acc - 1) mod 256) Hok) as [-> Hok'];
        [Z.div_mod_to_equations; lia|].
      cbn [mbind res_bind mret res_ret].
      rewrite (IH (prefix ++ [ord "-"]) _ (S n) fuel (acc - 1)); try done.
      * by apply Hnext.
      * cbn. apply list_lookup_insert_eq. destruct Hok. lia.
      * intros k Hk. apply Hclock. lia.
      * lia.
    + change (dispatch bracemap (ord ".") m) with
        (v ← getitem (memory m) (memptr m);
         c ← chr v;
         mret (set_result m (result m ++ [c]))).
      rewrite Hget. cbn [mbind res_bind].
      destruct (chr_byte _ Hbyte) as [-> _].
      cbn [mbind res_bind mret res_ret].
      rewrite (IH (prefix ++ [ord "."]) _ (S n) fuel acc); try done.
      * cbn. by rewrite <- app_assoc.
      * by apply Hnext.
      * intros k Hk. apply Hclock. lia.
      * lia.
Qed.
(** * The claims *)

(** C1. For every input text whose token stream is 65 repetitions of the
    token pair mapped to [+] followed by one instance of the token pair
    mapped to [.], [decode] returns the one-character string "A" (code
    point 65), not the absent result. The 66 iterations are taken to
    pass before the deadline. *)
Theorem decode_sixty_five_plus_dot (H : host) (text : str) (fuel : nat) :
  tokens_of H text = sixty_five_tokens ->
  (forall k, (1 <= k <= 66)%nat ->
             timed_out (time_time H 0) (time_time H k) = false) ->
  (66 <= fuel)%nat ->
  (decode H fuel text).2 = Returned (Some (lit "A")).
Proof.
  intros Htokens Hclock Hfuel.
  assert (Hcode : ook_to_brainfuck H text = Some (replicate 65 (ord "+") ++ [ord "."])).
  { apply (ook_to_brainfuck_Some H text (ord "+") (replicate 64 (ord "+") ++ [ord "."])).
    rewrite Htokens. vm_compute. reflexivity. }
  assert (bracemap_and_check (replicate 65 (ord "+") ++ [ord "."]) = (Some ∅, true))
    as Hcheck by (vm_compute; reflexivity).
  unfold decode. rewrite Hcode, Hcheck. cbn [negb snd].
  rewrite (run_straight H (Some ∅) _ (replicate 65 (ord "+") ++ [ord "."]) [] _ 0 fuel 0).
  - vm_compute. reflexivity.
  - done.
  - done.
  - apply (reachable_tape_ok [] None). constructor.
  - done.
  - apply Forall_app. split.
    + apply Forall_replicate. by left.
    + constructor; [|constructor]. by right; right.
  - intros k Hk. apply Hclock. rewrite length_app, length_replicate in Hk. cbn in Hk. lia.
  - rewrite length_app, length_replicate. cbn. lia.
Qed.

Lemma decode_sixty_five_plus_dot_witness :
  tokens_of still_host sixty_five_text = sixty_five_tokens
  /\ (decode still_host 66 sixty_five_text).2 = Returned (Some (lit "A")).
Proof.
  assert (Htokens : tokens_of still_host sixty_five_text = sixty_five_tokens)
    by (vm_compute; reflexivity).
  split; [exact Htokens|].
  apply (decode_sixty_five_plus_dot still_host sixty_five_text 66 Htokens);
    [intros; reflexivity|lia].
Defined.

(** C2, as amended. For every input text that contains none of the three
    token markers (in its lower-cased form), [decode] calls the
    transpiler, which emits no instruction, and returns the absent result
    without calling the validator or the tape machine; the applicability
    heuristic [fitness], which [decode] does not consult, scores such a
    text 0. *)
Theorem decode_without_marker (H : host) (text : str) (fuel : nat) :
  count (str_lower H text) (lit "ook.") = 0%nat ->
  count (str_lower H text) (lit "ook!") = 0%nat ->
  count (str_lower H text) (lit "ook?") = 0%nat ->
  decode H fuel text = ([Transpile], Returned None)
  /\ fitness H text = 0%float.
Proof.
  intros Hdot Hbang Hquest. split.
  - unfold decode. by rewrite no_marker_no_code.
  - unfold fitness. rewrite Hdot, Hbang, Hquest.
    destruct (length text =? 0)%nat; [done|].
    by destruct (PrimFloat.ltb _ _).
Qed.

Lemma decode_without_marker_witness :
  decode still_host 0 (lit "Hello, World!") = ([Transpile], Returned None)
  /\ fitness still_host (lit "Hello, World!") = 0%float.
Proof.
  apply (decode_without_marker still_host (lit "Hello, World!") 0);
    vm_compute; reflexivity.
Defined.

(** C2 as stated fails: on a text without any marker the heuristic scores
    0 and yet [decode] makes one call of the transpiler. *)
Lemma decode_transpiles_without_marker :
  count (ascii_lower (lit "Hello, World!")) (lit "ook.") = 0%nat
  /\ count (ascii_lower (lit "Hello, World!")) (lit "ook!") = 0%nat
  /\ count (ascii_lower (lit "Hello, World!")) (lit "ook?") = 0%nat
  /\ fitness still_host (lit "Hello, World!") = 0%float
  /\ (decode still_host 0 (lit "Hello, World!")).1 = [Transpile].
Proof. repeat split; vm_compute; reflexivity. Qed.

(** C3, as amended. In every step of the tape machine that does not
    raise, the instruction pointer ends one past where the dispatch left
    it: after a non-jump instruction it is the old pointer plus one, and
    after an executed jump (an opening bracket on a zero cell, a closing
    bracket on a non-zero cell) it is the jump-table target plus one. *)
Theorem codeptr_after_step (brainfuck_code : str)
    (bracemap : option (gmap nat nat)) (m m' : machine) (cmd : N) :
  brainfuck_code !! codeptr m = Some cmd ->
  step brainfuck_code bracemap m = Ok m' ->
  (jumps cmd m ->
   exists target, dict_getitem bracemap (codeptr m) = Ok target
                  /\ codeptr m' = S target)
  /\ (~ jumps cmd m -> codeptr m' = S (codeptr m)).
Proof.
  intros Hcmd. rewrite (step_at _ _ _ _ Hcmd).
  destruct (dispatch bracemap cmd m) as [m1|] eqn:Hd; cbn; [|done].
  intros [= <-]. cbn [codeptr set_codeptr].
  destruct (dispatch_codeptr _ _ _ _ Hd) as [Hjump Hstay]. split.
  - intros Hj. destruct (Hjump Hj) as (target & Hget & ->). by exists target.
  - intros Hn. by rewrite (Hstay Hn).
Qed.

Lemma codeptr_after_step_witness :
  exists m', step (lit "[.]") (bracemap_and_check (lit "[.]")).1 machine_init = Ok m'
  /\ (exists target,
        dict_getitem (bracemap_and_check (lit "[.]")).1 0 = Ok target
        /\ codeptr m' = S target).
Proof.
  eexists. split; [vm_compute; reflexivity|].
  refine (proj1 (codeptr_after_step (lit "[.]") (bracemap_and_check (lit "[.]")).1
                   machine_init _ (ord "[") _ _) _).
  - reflexivity.
  - vm_compute. reflexivity.
  - exists 0. split; [reflexivity|]. left. done.
Defined.

(** C3 as stated fails: the opening bracket of [[.]] on a zero cell jumps
    to its target, position 2, and the pointer is then incremented to 3. *)
Lemma jump_then_increment :
  jumps (ord "[") machine_init
  /\ dict_getitem (bracemap_and_check (lit "[.]")).1 0 = Ok 2%nat
  /\ exists m', step (lit "[.]") (bracemap_and_check (lit "[.]")).1 machine_init = Ok m'
                /\ codeptr m' = 3%nat /\ codeptr m' <> 2%nat.
Proof.
  split; [exists 0; split; [reflexivity|by left]|].
  split; [vm_compute; reflexivity|].
  eexists. split; [vm_compute; reflexivity|]. cbn. split; [done|lia].
Qed.

(** C4. For every program the validator's verdict is true exactly when
    every character is a legal instruction or whitespace, no closing
    bracket is read unmatched and none stays open at the end of the scan
    (the open stack is then empty), and the program has an output
    instruction; on an unmatched closing bracket it returns at once, with
    no table and the verdict false, whatever follows. *)
Theorem validator_verdict (program : str) :
  ((bracemap_and_check program).2 = true <->
   Forall (fun c => c ∈ legal_instructions \/ isspace c = true) program
   /\ depth_after 0 program = Some 0%nat
   /\ ord "." ∈ program)
  /\ (depth_after 0 program = Some 0%nat <->
      exists s, scan_loop program 0 scan_init = Some s /\ open_stack s = [])
  /\ (forall pre post,
        program = pre ++ ord "]" :: post ->
        depth_after 0 pre = Some 0%nat ->
        bracemap_and_check program = (None, false)).
Proof.
  split; [|split].
  - rewrite is_brainfuck_iff.
    assert (Hlegal : forall c, is_legal c = true
                               <-> c ∈ legal_instructions \/ isspace c = true).
    { intros c. unfold is_legal. by rewrite orb_true_iff, bool_decide_eq_true. }
    split; intros (Hall & ? & ?); (split; [|done]);
      (eapply Forall_impl; [exact Hall|]); intros c; by apply Hlegal.
  - pose proof (scan_loop_depth program 0 scan_init) as Hdepth. cbn in Hdepth.
    destruct (scan_loop program 0 scan_init) as [s|]; rewrite Hdepth.
    + split.
      * intros [= Hlen]. exists s. split; [done|].
        by apply length_zero_iff_nil.
      * intros (s0 & [= <-] & ->). done.
    + split; [done|]. by intros (s0 & ? & _).
  - intros pre post -> Hpre. unfold bracemap_and_check.
    rewrite scan_loop_app.
    pose proof (scan_loop_depth pre 0 scan_init) as Hdepth. cbn in Hdepth.
    destruct (scan_loop pre 0 scan_init) as [s|]; [|done].
    rewrite Hpre in Hdepth. injection Hdepth as Hlen.
    symmetry in Hlen. apply length_zero_iff_nil in Hlen.
    cbn [scan_loop].
    assert (scan_step (0 + length pre) (ord "]") s = None) as ->; [|done].
    by apply scan_step_None.
Qed.

Lemma validator_verdict_witness :
  bracemap_and_check (lit "+.]+[") = (None, false).
Proof.
  apply (proj2 (proj2 (validator_verdict (lit "+.]+["))) (lit "+.") (lit "+["));
    reflexivity.
Defined.

(** C5. For every program the validator accepts, every position [i]
    holding an opening bracket has an entry [j] in the jump table; the
    table maps [j] back to [i]; and [j] is the position, greater than [i],
    of the nearest closing bracket that structurally matches. *)
Theorem jump_table_symmetric (program : str) (table : gmap nat nat) (i : nat) :
  bracemap_and_check program = (Some table, true) ->
  program !! i = Some (ord "[") ->
  (exists j, table !! i = Some j)
  /\ (forall j, table !! i = Some j ->
        table !! j = Some i
        /\ (i < j)%nat
        /\ program !! j = Some (ord "]")
        /\ matching_close program i = Some j).
Proof.
  unfold bracemap_and_check.
  destruct (scan_loop program 0 scan_init) as [s|] eqn:Hscan; [|done].
  intros [= <- Hvalid] Hat.
  assert (Hok : stack_ok 0 (open_stack scan_init)).
  { split; [apply NoDup_nil_2|constructor]. }
  apply andb_true_iff in Hvalid as [[_ Hempty]%andb_true_iff _].
  apply Nat.eqb_eq, length_zero_iff_nil in Hempty.
  pose proof (scan_loop_open _ _ _ _ _ Hscan Hok Hat) as Hopen. cbn in Hopen.
  unfold matching_close.
  destruct (find_close 0 (drop (S i) program) (S i)) as [j|] eqn:Hfind.
  - destruct Hopen as [Hij Hji]. split; [by exists j|].
    intros j' Hj'. assert (j' = j) as -> by congruence.
    apply find_close_spec in Hfind as [Hle Hclose].
    rewrite lookup_drop in Hclose.
    replace (S i + (j - S i))%nat with j in Hclose by lia.
    repeat split; [done|lia|done].
  - rewrite Hempty in Hopen. by apply elem_of_nil in Hopen.
Qed.

Lemma jump_table_symmetric_witness :
  (exists j, ({[1%nat := 5%nat; 5%nat := 1%nat; 2%nat := 4%nat; 4%nat := 2%nat]}
               : gmap nat nat) !! 1%nat = Some j)
  /\ matching_close (lit "+[[-]].") 1 = Some 5%nat.
Proof.
  assert (Hcheck : bracemap_and_check (lit "+[[-]].")
                   = (Some {[1%nat := 5%nat; 5%nat := 1%nat;
                             2%nat := 4%nat; 4%nat := 2%nat]}, true))
    by (vm_compute; reflexivity).
  destruct (jump_table_symmetric (lit "+[[-]].") _ 1 Hcheck eq_refl) as [Hex Hall].
  split; [exact Hex|].
  apply (Hall 5%nat). vm_compute. reflexivity.
Defined.

(** C6. At the head of every iteration the tape machine compares the
    time elapsed since the start with the 60-second limit; past it the
    loop returns the absent result at once, whatever output the machine
    holds, so an output that is returned is always that of a run to the
    end of the program; and once a reading of the clock is past the
    deadline, [decode] has returned by the iteration of that reading,
    whatever the program. *)
Theorem deadline_enforced (H : host) (ctext : str) :
  (forall start current,
      timed_out start current = (60 <? current - start)%float)
  /\ (forall code bracemap fuel n m,
        (codeptr m < length code)%nat ->
        timed_out (time_time H 0) (time_time H (S n)) = true ->
        run H code bracemap (S fuel) n m = Returned None)
  /\ (forall k fuel,
        (1 <= k <= fuel)%nat ->
        timed_out (time_time H 0) (time_time H k) = true ->
        exists r, (decode H fuel ctext).2 = Returned r)
  /\ (forall fuel s,
        (decode H fuel ctext).2 = Returned (Some s) ->
        exists code m,
          ook_to_brainfuck H ctext = Some code
          /\ reachable code (bracemap_and_check code).1 m
          /\ (length code <= codeptr m)%nat
          /\ result m = s).
Proof.
  split; [done|]. split; [|split].
  - intros code bracemap fuel n m. apply run_timeout.
  - intros k fuel Hk Hpast. unfold decode.
    destruct (ook_to_brainfuck H ctext) as [code|]; [|by eexists].
    destruct (bracemap_and_check code) as [[table|] [|]] eqn:Hcheck;
      cbn; try by eexists.
    + pose proof (run_safe H code table fuel 0 machine_init Hcheck) as Hsafe.
      pose proof (run_ends_by_deadline H code (Some table) k fuel 0 machine_init Hpast)
        as Hends.
      destruct (reachable_tape_ok code (Some table) machine_init) as [Hok Hout];
        [constructor|].
      destruct (run H code (Some table) fuel 0 machine_init) as [r|e|].
      * by exists r.
      * by destruct (Hsafe Hok Hout).
      * exfalso. apply Hends; [lia|lia|done].
    + unfold bracemap_and_check in Hcheck.
      by destruct (scan_loop code 0 scan_init).
  - intros fuel s. unfold decode.
    destruct (ook_to_brainfuck H ctext) as [code|]; [|done].
    destruct (bracemap_and_check code) as [bracemap [|]] eqn:Hcheck; cbn; [|done].
    intros Hrun.
    destruct (run_returns_whole H code bracemap fuel 0 machine_init s)
      as (m & Hreach & Hend & Hres); [constructor|done|].
    exists code, m. rewrite Hcheck. cbn. auto.
Qed.

Lemma deadline_enforced_witness :
  timed_out (time_time slow_host 0) (time_time slow_host 3) = true
  /\ (decode slow_host 3 endless_text).2 = Returned None
  /\ exists r, (decode slow_host 5 endless_text).2 = Returned r.
Proof.
  assert (Hpast : timed_out (time_time slow_host 0) (time_time slow_host 3) = true)
    by reflexivity.
  split; [exact Hpast|]. split; [vm_compute; reflexivity|].
  destruct (deadline_enforced slow_host endless_text) as (_ & _ & Hends & _).
  apply (Hends 3%nat 5%nat); [lia|exact Hpast].
Defined.

(** C7. Executing [+] on a cell holding 255 leaves 0 in it and executing
    [-] on a cell holding 0 leaves 255; neither raises; and every program
    of [+], [-] and [.] run within the deadline outputs exactly the
    characters arithmetic modulo 256 predicts. *)
Theorem cells_wrap_modulo_256 (H : host) (bracemap : option (gmap nat nat)) :
  (forall code m,
      code !! codeptr m = Some (ord "+") ->
      getitem (memory m) (memptr m) = Ok 255 ->
      exists m', step code bracemap m = Ok m'
                 /\ getitem (memory m') (memptr m') = Ok 0)
  /\ (forall code m,
        code !! codeptr m = Some (ord "-") ->
        getitem (memory m) (memptr m) = Ok 0 ->
        exists m', step code bracemap m = Ok m'
                   /\ getitem (memory m') (memptr m') = Ok 255)
  /\ (forall program fuel,
        Forall (fun c => c = ord "+" \/ c = ord "-" \/ c = ord ".") program ->
        (forall k, (1 <= k <= length program)%nat ->
                   timed_out (time_time H 0) (time_time H k) = false) ->
        (length program <= fuel)%nat ->
        run H program bracemap fuel 0 machine_init
        = Returned (Some (predicted 0 program))).
Proof.
  split; [|split].
  - intros code m Hcmd Hget. apply (step_plus_cell code bracemap m 255 Hcmd Hget).
  - intros code m Hcmd Hget. apply (step_minus_cell code bracemap m 0 Hcmd Hget).
  - intros program fuel Hops Hclock Hfuel.
    apply (run_straight H bracemap program program [] machine_init 0 fuel 0);
      try done.
    apply (reachable_tape_ok [] None). constructor.
Qed.

Lemma cells_wrap_modulo_256_witness :
  run still_host (lit "-.++.") None 5 0 machine_init
  = Returned (Some [255%N; 1%N]).
Proof.
  refine (proj2 (proj2 (cells_wrap_modulo_256 still_host None)) (lit "-.++.") 5%nat _ _ _).
  - repeat (constructor; [first [by left|by right; left|by right; right]|]).
    constructor.
  - intros; reflexivity.
  - cbn. lia.
Defined.

(** C8. Executing [>] with the tape pointer on the last cell appends
    exactly one zero cell and then advances the pointer by one; [>] never
    wraps; executing [<] with the tape pointer at 0 moves it to the last
    cell; [<] never changes the tape; and no step shrinks the tape or
    grows it other than by that one cell at the right end. *)
Theorem tape_grows_right_wraps_left (brainfuck_code : str)
    (bracemap : option (gmap nat nat)) (m : machine) :
  (brainfuck_code !! codeptr m = Some (ord ">") ->
   exists m', step brainfuck_code bracemap m = Ok m'
     /\ memptr m' = memptr m + 1
     /\ (memptr m = Z.of_nat (length (memory m)) - 1 -> memory m' = memory m ++ [0])
     /\ (memptr m <> Z.of_nat (length (memory m)) - 1 -> memory m' = memory m))
  /\ (brainfuck_code !! codeptr m = Some (ord "<") ->
      exists m', step brainfuck_code bracemap m = Ok m'
        /\ memory m' = memory m
        /\ (memptr m = 0 -> memptr m' = Z.of_nat (length (memory m)) - 1)
        /\ (memptr m <> 0 -> memptr m' = memptr m - 1))
  /\ (forall m',
        step brainfuck_code bracemap m = Ok m' ->
        (length (memory m) <= length (memory m'))%nat
        /\ (length (memory m') <> length (memory m) ->
            brainfuck_code !! codeptr m = Some (ord ">")
            /\ memory m' = memory m ++ [0])).
Proof.
  split; [|split].
  - intros Hcmd. rewrite (step_at _ _ _ _ Hcmd), dispatch_right.
    eexists. split; [reflexivity|].
    destruct (Z.eqb_spec (memptr m) (Z.of_nat (length (memory m)) - 1));
      cbn; repeat split; done.
  - intros Hcmd. rewrite (step_at _ _ _ _ Hcmd), dispatch_left.
    eexists. split; [reflexivity|].
    destruct (Z.eqb_spec (memptr m) 0); cbn; repeat split; done.
  - intros m' Hstep. destruct (step_Ok_cmd _ _ _ _ Hstep) as [cmd Hcmd].
    rewrite (step_at _ _ _ _ Hcmd) in Hstep.
    destruct (dispatch bracemap cmd m) as [m1|] eqn:Hd; [|done].
    cbn in Hstep. injection Hstep as <-. cbn [memory set_codeptr].
    destruct (dispatch_memory _ _ _ _ Hd) as [Hkeep Hgrow].
    split; [exact Hkeep|].
    intros Hlen. destruct (Hgrow Hlen) as [-> ->]. done.
Qed.

Lemma tape_grows_right_wraps_left_witness :
  memptr at_right_edge = Z.of_nat (length (memory at_right_edge)) - 1
  /\ exists m', step (lit "><") None at_right_edge = Ok m'
                /\ memptr m' = 100
                /\ memory m' = replicate 100 0 ++ [0].
Proof.
  split; [reflexivity|].
  destruct (tape_grows_right_wraps_left (lit "><") None at_right_edge)
    as [Hright _].
  destruct (Hright eq_refl) as (m' & Hstep & Hptr & Hgrow & _).
  exists m'. split; [exact Hstep|]. split; [exact Hptr|exact (Hgrow eq_refl)].
Defined.

(** C9. For every input text [decode] raises nothing: a text that
    transpiles to no instruction, a program the validator rejects and a
    deadline that has passed each end in the absent result; a result that
    is not absent is a string of characters with code points below 256;
    and once a reading of the clock is past the deadline, [decode] has
    returned. *)
Theorem decode_never_raises (H : host) (ctext : str) (fuel : nat) :
  (forall e, (decode H fuel ctext).2 = Raised e -> False)
  /\ (ook_to_brainfuck H ctext = None ->
      (decode H fuel ctext).2 = Returned None)
  /\ (forall code,
        ook_to_brainfuck H ctext = Some code ->
        (bracemap_and_check code).2 = false ->
        (decode H fuel ctext).2 = Returned None)
  /\ (forall code bracemap n m,
        (codeptr m < length code)%nat ->
        timed_out (time_time H 0) (time_time H (S n)) = true ->
        run H code bracemap (S fuel) n m = Returned None)
  /\ (forall s,
        (decode H fuel ctext).2 = Returned (Some s) ->
        Forall (fun c => (c < 256)%N) s)
  /\ (forall k,
        (1 <= k <= fuel)%nat ->
        timed_out (time_time H 0) (time_time H k) = true ->
        exists r, (decode H fuel ctext).2 = Returned r).
Proof.
  assert (Hrun : forall code table,
            ook_to_brainfuck H ctext = Some code ->
            bracemap_and_check code = (Some table, true) ->
            (decode H fuel ctext).2 = run H code (Some table) fuel 0 machine_init
            /\ match run H code (Some table) fuel 0 machine_init with
               | Returned (Some s) => Forall (fun c => (c < 256)%N) s
               | Returned None => True
               | Raised _ => False
               | OutOfFuel => True
               end).
  { intros code table Hcode Hcheck. split.
    - unfold decode. by rewrite Hcode, Hcheck.
    - destruct (reachable_tape_ok code (Some table) machine_init); [constructor|].
      by apply run_safe. }
  assert (Hcases : ook_to_brainfuck H ctext = None
                   \/ (exists code, ook_to_brainfuck H ctext = Some code
                                    /\ (bracemap_and_check code).2 = false)
                   \/ (exists code table, ook_to_brainfuck H ctext = Some code
                          /\ bracemap_and_check code = (Some table, true))).
  { destruct (ook_to_brainfuck H ctext) as [code|]; [|by left]. right.
    destruct (bracemap_and_check code) as [[table|] [|]] eqn:Hcheck.
    - right. by exists code, table.
    - left. exists code. by rewrite Hcheck.
    - unfold bracemap_and_check in Hcheck. by destruct (scan_loop code 0 scan_init).
    - left. exists code. by rewrite Hcheck. }
  assert (Hnone : ook_to_brainfuck H ctext = None ->
                  (decode H fuel ctext).2 = Returned None).
  { intros Hcode. unfold decode. by rewrite Hcode. }
  assert (Hreject : forall code,
            ook_to_brainfuck H ctext = Some code ->
            (bracemap_and_check code).2 = false ->
            (decode H fuel ctext).2 = Returned None).
  { intros code Hcode Hcheck. unfold decode. rewrite Hcode.
    destruct (bracemap_and_check code) as [bracemap isbf]. cbn in Hcheck.
    by rewrite Hcheck. }
  split; [|split; [exact Hnone|split; [exact Hreject|split; [|split]]]].
  - intros e He.
    destruct Hcases as [Hc|[(code & Hc & Hv)|(code & table & Hc & Hv)]].
    + by rewrite Hnone in He.
    + by rewrite (Hreject code) in He.
    + destruct (Hrun code table Hc Hv) as [Heq Hsafe].
      rewrite Heq in He. by rewrite He in Hsafe.
  - intros code bracemap n m. apply run_timeout.
  - intros s Hs.
    destruct Hcases as [Hc|[(code & Hc & Hv)|(code & table & Hc & Hv)]].
    + by rewrite Hnone in Hs.
    + by rewrite (Hreject code) in Hs.
    + destruct (Hrun code table Hc Hv) as [Heq Hsafe].
      rewrite Heq in Hs. by rewrite Hs in Hsafe.
  - intros k Hk Hpast.
    destruct Hcases as [Hc|[(code & Hc & Hv)|(code & table & Hc & Hv)]].
    + exists None. by apply Hnone.
    + exists None. by apply (Hreject code).
    + destruct (Hrun code table Hc Hv) as [Heq Hsafe]. rewrite Heq.
      pose proof (run_ends_by_deadline H code (Some table) k fuel 0 machine_init Hpast)
        as Hends.
      destruct (run H code (Some table) fuel 0 machine_init) as [r|e|].
      * by exists r.
      * done.
      * exfalso. apply Hends; [lia|lia|done].
Qed.

Lemma decode_never_raises_witness :
  (decode slow_host 3 (lit "Ook! Ook? Ook. Ook.")).2 = Returned None
  /\ exists r, (decode slow_host 3 endless_text).2 = Returned r.
Proof.
  destruct (decode_never_raises slow_host (lit "Ook! Ook? Ook. Ook.") 3)
    as (_ & _ & Hreject & _).
  split.
  - apply (Hreject (lit "[+")); vm_compute; reflexivity.
  - destruct (decode_never_raises slow_host endless_text 3) as (_ & _ & _ & _ & _ & Hk).
    apply (Hk 3%nat); [lia|reflexivity].
Defined.

(** C10. In every state the interpreter loop reaches, the tape pointer is
    an index of the tape and every cell holds a value from 0 to 255; so
    the cell read, the cell write and the [chr] of the cell all succeed,
    and a step can raise only in the jump-table lookup. *)
Theorem tape_pointer_and_cells_in_range (brainfuck_code : str)
    (bracemap : option (gmap nat nat)) (m : machine) :
  reachable brainfuck_code bracemap m ->
  (0 <= memptr m < Z.of_nat (length (memory m))
   /\ Forall (fun v => 0 <= v <= 255) (memory m))
  /\ (exists v c, getitem (memory m) (memptr m) = Ok v /\ chr v = Ok c)
  /\ (forall x, exists memory', setitem (memory m) (memptr m) x = Ok memory')
  /\ (forall e,
        (codeptr m < length brainfuck_code)%nat ->
        step brainfuck_code bracemap m = Raise e ->
        dict_getitem bracemap (codeptr m) = Raise e).
Proof.
  intros Hreach. destruct (reachable_tape_ok _ _ _ Hreach) as [Hok Hout].
  split; [exact Hok|]. split; [|split].
  - destruct (tape_ok_cell m Hok) as (v & _ & Hv & Hget).
    destruct (chr_byte v Hv) as [Hchr _]. by exists v, (Z.to_N v).
  - intros x. eexists. apply setitem_nonneg. by destruct Hok.
  - intros e Hlt Hstep.
    pose proof (step_tape_ok brainfuck_code bracemap m Hok Hout Hlt) as Hs.
    rewrite Hstep in Hs. by destruct Hs as (_ & _ & _ & ?).
Qed.

Lemma tape_pointer_and_cells_in_range_witness :
  exists m, step (lit "<-.") None machine_init = Ok m
            /\ memptr m = 99
            /\ 0 <= memptr m < Z.of_nat (length (memory m))
            /\ Forall (fun v => 0 <= v <= 255) (memory m).
Proof.
  assert (Hstep : step (lit "<-.") None machine_init
                  = Ok {| codeptr := 1; memptr := 99;
                          memory := replicate 100 0; result := [] |})
    by reflexivity.
  assert (Hlt : (codeptr machine_init < length (lit "<-."))%nat) by (cbn; lia).
  eexists. split; [exact Hstep|]. split; [reflexivity|].
  exact (proj1 (tape_pointer_and_cells_in_range (lit "<-.") None _
                  (reach_step _ _ machine_init _ (reach_init _ _) Hlt Hstep))).
Defined.

(** * Further properties *)

(** ** Transpiler *)

Lemma legal_instructions_spec c :
  c ∈ legal_instructions <->
  c = ord "+" \/ c = ord "-" \/ c = ord ">" \/ c = ord "<"
  \/ c = ord "[" \/ c = ord "]" \/ c = ord "." \/ c = ord ",".
Proof.
  unfold legal_instructions. rewrite !elem_of_union, !elem_of_singleton. tauto.
Qed.

Lemma ook_map_range key instruction :
  ook_map !! key = Some instruction -> instruction ∈ legal_instructions.
Proof.
  intros Hin. apply elem_of_list_to_map_2 in Hin.
  apply legal_instructions_spec.
  repeat (apply elem_of_cons in Hin as [[= _ ->]|Hin]); auto 10.
  by apply elem_of_nil in Hin.
Qed.

(** Induction over the token list the way [pair_tokens] walks it: by one
    token or by two. *)
Lemma pair_tokens_walk (P : list str -> Prop) :
  P [] -> (forall t, P [t]) ->
  (forall t1 t2 rest instruction,
      ook_map !! (t1 ++ lit " " ++ t2) = Some instruction ->
      P rest -> P (t1 :: t2 :: rest)) ->
  (forall t1 t2 rest,
      ook_map !! (t1 ++ lit " " ++ t2) = None ->
      P (t2 :: rest) -> P (t1 :: t2 :: rest)) ->
  forall tokens, P tokens.
Proof.
  intros Hnil Hone Hpair Hskip tokens.
  assert (Hboth : P tokens /\ forall t, P (t :: tokens)); [|by destruct Hboth].
  induction tokens as [|t2 rest [IH1 IH2]]; [by split|].
  split; [apply IH2|]. intros t1.
  destruct (ook_map !! (t1 ++ lit " " ++ t2)) as [instruction|] eqn:Hlook.
  - by apply (Hpair _ _ _ instruction).
  - apply Hskip; [done|apply IH2].
Qed.

Lemma pair_tokens_pair t1 t2 rest instruction :
  ook_map !! (t1 ++ lit " " ++ t2) = Some instruction ->
  pair_tokens (t1 :: t2 :: rest) = instruction :: pair_tokens rest.
Proof. intros Hlook. cbn [pair_tokens]. by rewrite Hlook. Qed.

Lemma pair_tokens_skip t1 t2 rest :
  ook_map !! (t1 ++ lit " " ++ t2) = None ->
  pair_tokens (t1 :: t2 :: rest) = pair_tokens (t2 :: rest).
Proof. intros Hlook. cbn [pair_tokens]. by rewrite Hlook. Qed.

Lemma pair_tokens_legal tokens :
  Forall (fun c => c ∈ legal_instructions) (pair_tokens tokens).
Proof.
  induction tokens as [| |t1 t2 rest instruction Hlook IH|t1 t2 rest Hlook IH]
    using pair_tokens_walk; try by constructor.
  - rewrite (pair_tokens_pair _ _ _ _ Hlook). constructor; [|done].
    by apply (ook_map_range _ _ Hlook).
  - by rewrite (pair_tokens_skip _ _ _ Hlook).
Qed.

Lemma pair_tokens_length tokens :
  (2 * length (pair_tokens tokens) <= length tokens)%nat.
Proof.
  induction tokens as [| |t1 t2 rest instruction Hlook IH|t1 t2 rest Hlook IH]
    using pair_tokens_walk; try (cbn; lia).
  - rewrite (pair_tokens_pair _ _ _ _ Hlook). cbn [length]. lia.
  - rewrite (pair_tokens_skip _ _ _ Hlook). cbn [length] in *. lia.
Qed.

Lemma depth_after_no_bracket d program :
  Forall (fun c => c <> ord "[" /\ c <> ord "]") program ->
  depth_after d program = Some d.
Proof.
  induction 1 as [|c program [Ho Hc] _ IH]; cbn [depth_after]; [done|].
  apply N.eqb_neq in Ho, Hc. by rewrite Ho, Hc.
Qed.

(** X1. Whatever the text, a program the transpiler returns is not empty
    and consists of the eight instructions only, at most one for every
    two tokens; so the validator never rejects it for an illegal
    character: its verdict is decided by the brackets and the presence of
    an output instruction alone. *)
Theorem transpiled_program_legal (H : host) (text code : str) :
  ook_to_brainfuck H text = Some code ->
  code <> []
  /\ Forall (fun c => c ∈ legal_instructions) code
  /\ (2 * length code <= length (tokens_of H text))%nat
  /\ ((bracemap_and_check code).2 = true <->
      depth_after 0 code = Some 0%nat /\ ord "." ∈ code).
Proof.
  unfold ook_to_brainfuck.
  pose proof (pair_tokens_legal (tokens_of H text)) as Hlegal.
  pose proof (pair_tokens_length (tokens_of H text)) as Hlen.
  destruct (pair_tokens (tokens_of H text)) as [|c rest] eqn:Hpairs; [done|].
  intros [= <-]. split; [done|]. split; [done|]. split; [done|].
  rewrite is_brainfuck_iff. split; [by intros (_ & ? & ?)|].
  intros [Hdepth Hdot]. split; [|done].
  eapply Forall_impl; [exact Hlegal|]. intros c' Hc'. unfold is_legal.
  by rewrite bool_decide_eq_true_2.
Qed.

Lemma transpiled_program_legal_witness :
  ook_to_brainfuck still_host noisy_text = Some (lit ">[-]<+.")
  /\ Forall (fun c => c ∈ legal_instructions) (lit ">[-]<+.").
Proof.
  assert (Hcode : ook_to_brainfuck still_host noisy_text = Some (lit ">[-]<+."))
    by (vm_compute; reflexivity).
  split; [exact Hcode|].
  exact (proj1 (proj2 (transpiled_program_legal still_host noisy_text _ Hcode))).
Defined.

Lemma ook_pair_lookup c :
  c ∈ legal_instructions ->
  exists t1 t2, ook_pair c = [t1; t2]
                /\ ook_map !! (t1 ++ lit " " ++ t2) = Some c
                /\ token t1 /\ token t2.
Proof.
  intros Hc. apply legal_instructions_spec in Hc.
  destruct Hc as [->|[->|[->|[->|[->|[->|[->| ->]]]]]]];
    (eexists _, _; split; [reflexivity|]; split; [vm_compute; reflexivity|]);
    split; repeat constructor.
Qed.

Lemma ook_map_inverse key c :
  ook_map !! key = Some c ->
  exists t1 t2, ook_pair c = [t1; t2] /\ key = t1 ++ lit " " ++ t2.
Proof.
  intros Hin. apply elem_of_list_to_map_2 in Hin.
  repeat (apply elem_of_cons in Hin as [[= -> ->]|Hin]);
    [..|by apply elem_of_nil in Hin]; by eexists _, _.
Qed.

(** The part of a pair's key before its space, and the part after it. *)
Lemma key_split t1 t2 a b :
  token t1 -> token a ->
  t1 ++ lit " " ++ t2 = a ++ lit " " ++ b -> t1 = a /\ t2 = b.
Proof.
  intros Ht1. revert a. induction Ht1 as [|c t1 Hc _ IH]; intros a Ha Heq.
  - destruct Ha as [|d a Hd _]; cbn in Heq; [by injection Heq|].
    injection Heq as <- _. done.
  - destruct Ha as [|d a Hd Ha]; cbn in Heq.
    + injection Heq as -> _. done.
    + injection Heq as -> Heq. destruct (IH a Ha Heq) as [-> ->]. done.
Qed.

Lemma tokens_of_spec H text t :
  t ∈ tokens_of H text -> substr t (str_lower H text) /\ token t.
Proof.
  intros Ht. apply split_from_token in Ht as [Hsub Hns]; [|constructor].
  split; [|done]. apply (substr_trans _ _ _ Hsub (strip_substr _)).
Qed.

Lemma pair_tokens_ook_tokens program rest :
  Forall (fun c => c ∈ legal_instructions) program ->
  pair_tokens (ook_tokens program ++ rest) = program ++ pair_tokens rest.
Proof.
  induction 1 as [|c program Hc _ IH]; [done|].
  destruct (ook_pair_lookup c Hc) as (t1 & t2 & Hpair & Hlook & _).
  unfold ook_tokens in *. cbn [map concat]. rewrite Hpair. cbn [app].
  rewrite (pair_tokens_pair _ _ _ _ Hlook), IH. done.
Qed.

Lemma pair_tokens_stray t rest :
  token t -> t <> lit "ook." -> t <> lit "ook!" -> t <> lit "ook?" ->
  pair_tokens (t :: rest) = pair_tokens rest.
Proof.
  intros Ht Hdot Hbang Hquest. destruct rest as [|t2 rest]; [done|].
  rewrite pair_tokens_skip; [done|].
  destruct (ook_map !! (t ++ lit " " ++ t2)) as [c|] eqn:Hlook; [|done].
  by destruct (ook_map_first_token _ _ _ Ht Hlook) as [?|[?|?]].
Qed.

Lemma ook_to_brainfuck_spelled H text program :
  program <> [] ->
  Forall (fun c => c ∈ legal_instructions) program ->
  tokens_of H text = ook_tokens program ->
  ook_to_brainfuck H text = Some program.
Proof.
  intros Hne Hlegal Htokens. unfold ook_to_brainfuck. rewrite Htokens.
  rewrite <- (app_nil_r (ook_tokens program)).
  rewrite (pair_tokens_ook_tokens program [] Hlegal), app_nil_r.
  by destruct program.
Qed.

(** X2. The pair table is one-to-one onto the eight instructions: a pair
    maps only to instructions, every instruction has a pair, and two
    pairs that map to the same instruction are the same pair. *)
Theorem ook_map_bijective :
  (forall key c, ook_map !! key = Some c -> c ∈ legal_instructions)
  /\ (forall c, c ∈ legal_instructions -> exists key, ook_map !! key = Some c)
  /\ (forall key1 key2 c,
        ook_map !! key1 = Some c -> ook_map !! key2 = Some c -> key1 = key2).
Proof.
  split; [exact ook_map_range|]. split.
  - intros c Hc. destruct (ook_pair_lookup c Hc) as (t1 & t2 & _ & Hlook & _).
    by eexists.
  - intros key1 key2 c H1 H2.
    destruct (ook_map_inverse _ _ H1) as (a1 & b1 & Hp1 & ->).
    destruct (ook_map_inverse _ _ H2) as (a2 & b2 & Hp2 & ->).
    rewrite Hp1 in Hp2. by injection Hp2 as -> ->.
Qed.

(** X3. Every non-empty program over the eight instructions can be
    written in Ook!: a text whose token stream spells the program pair by
    pair transpiles to exactly that program. *)
Theorem transpile_ook_tokens (H : host) (text program : str) :
  program <> [] ->
  Forall (fun c => c ∈ legal_instructions) program ->
  tokens_of H text = ook_tokens program ->
  ook_to_brainfuck H text = Some program.
Proof. apply ook_to_brainfuck_spelled. Qed.

Lemma transpile_ook_tokens_witness :
  ook_to_brainfuck still_host
    (lit " Ook. Ook?  Ook! Ook? OOK! OOK! Ook? Ook! Ook? Ook. Ook. Ook. Ook! Ook.")
  = Some (lit ">[-]<+.").
Proof.
  apply transpile_ook_tokens.
  - done.
  - apply Forall_forall. intros c Hc. apply legal_instructions_spec.
    repeat (apply elem_of_cons in Hc as [->|Hc]; [auto 10|]).
    by apply elem_of_nil in Hc.
  - vm_compute. reflexivity.
Defined.

(** X4. Resynchronisation: a token that is none of the three markers is
    skipped alone, so such a token standing between two pairs costs
    nothing: the instructions spelled before it are emitted, and
    transpilation goes on with the tokens after it. *)
Theorem stray_token_between_pairs (program : str) (t : str) (rest : list str) :
  Forall (fun c => c ∈ legal_instructions) program ->
  token t -> t <> lit "ook." -> t <> lit "ook!" -> t <> lit "ook?" ->
  pair_tokens (ook_tokens program ++ t :: rest) = program ++ pair_tokens rest.
Proof.
  intros Hlegal Ht Hdot Hbang Hquest.
  by rewrite pair_tokens_ook_tokens, pair_tokens_stray.
Qed.

Lemma stray_token_between_pairs_witness :
  pair_tokens (ook_tokens (lit "+") ++ lit "eek" :: ook_tokens (lit "."))
  = lit "+" ++ pair_tokens (ook_tokens (lit ".")).
Proof.
  apply stray_token_between_pairs; try done.
  - constructor; [|constructor]. apply legal_instructions_spec. auto.
  - repeat constructor.
Defined.

(** An emitted output instruction comes from the pair [ook! ook.]. *)
Lemma dot_needs_pair tokens :
  Forall token tokens ->
  ord "." ∈ pair_tokens tokens ->
  lit "ook!" ∈ tokens /\ lit "ook." ∈ tokens.
Proof.
  induction tokens as [| |t1 t2 rest instruction Hlook IH|t1 t2 rest Hlook IH]
    using pair_tokens_walk.
  - by intros _ ?%elem_of_nil.
  - by intros _ ?%elem_of_nil.
  - intros Htok. rewrite (pair_tokens_pair _ _ _ _ Hlook).
    apply Forall_cons in Htok as [Ht1 [Ht2 Hrest]%Forall_cons].
    intros [<-|Hin]%elem_of_cons.
    + destruct (ook_map_inverse _ _ Hlook) as (a & b & [= <- <-] & Hkey).
      apply key_split in Hkey as [-> ->]; [|done|repeat constructor].
      split; [by left|]. right. by left.
    + destruct (IH Hrest Hin). split; by do 2 right.
  - intros Htok. rewrite (pair_tokens_skip _ _ _ Hlook).
    apply Forall_cons in Htok as [_ Htok]. intros Hin.
    destruct (IH Htok Hin). split; by right.
Qed.

(** X5. A text is decoded only if, lower-cased, it contains both the
    marker [ook!] and the marker [ook.]: they spell the output
    instruction, without which the validator rejects the program. *)
Theorem decoded_text_has_markers (H : host) (text s : str) (fuel : nat) :
  (decode H fuel text).2 = Returned (Some s) ->
  (0 < count (str_lower H text) (lit "ook!"))%nat
  /\ (0 < count (str_lower H text) (lit "ook."))%nat.
Proof.
  unfold decode.
  destruct (ook_to_brainfuck H text) as [code|] eqn:Hcode; [|done].
  destruct (bracemap_and_check code) as [bracemap isbf] eqn:Hcheck.
  destruct isbf; [|done]. intros _.
  assert (Hdot : ord "." ∈ code).
  { apply (is_brainfuck_iff code). by rewrite Hcheck. }
  unfold ook_to_brainfuck in Hcode.
  destruct (pair_tokens (tokens_of H text)) as [|c rest] eqn:Hpairs; [done|].
  injection Hcode as <-. rewrite <- Hpairs in Hdot.
  apply dot_needs_pair in Hdot as [Hbang Hpoint].
  - apply tokens_of_spec in Hbang as [Hbang _], Hpoint as [Hpoint _].
    split; by apply count_substr.
  - apply Forall_forall. intros t Ht. by apply tokens_of_spec in Ht as [_ ?].
Qed.

Lemma decoded_text_has_markers_witness :
  (0 < count (ascii_lower sixty_five_text) (lit "ook!"))%nat
  /\ (0 < count (ascii_lower sixty_five_text) (lit "ook."))%nat.
Proof.
  apply (decoded_text_has_markers still_host sixty_five_text (lit "A") 66).
  vm_compute. reflexivity.
Defined.

(** X6. End to end on straight-line programs: a text whose token stream
    spells a program of [+], [-] and [.] with at least one [.] passes
    all three stages, and [decode] returns the characters arithmetic
    modulo 256 predicts, when the iterations pass before the deadline. *)
Theorem decode_straight_line (H : host) (text program : str) (fuel : nat) :
  Forall (fun c => c = ord "+" \/ c = ord "-" \/ c = ord ".") program ->
  ord "." ∈ program ->
  tokens_of H text = ook_tokens program ->
  (forall k, (1 <= k <= length program)%nat ->
             timed_out (time_time H 0) (time_time H k) = false) ->
  (length program <= fuel)%nat ->
  decode H fuel text
  = ([Transpile; Validate; Execute], Returned (Some (predicted 0 program))).
Proof.
  intros Hops Hdot Htokens Hclock Hfuel.
  assert (Hlegal : Forall (fun c => c ∈ legal_instructions) program).
  { eapply Forall_impl; [exact Hops|]. intros c Hc.
    apply legal_instructions_spec. destruct Hc as [->|[->| ->]]; auto 10. }
  assert (Hcode : ook_to_brainfuck H text = Some program).
  { apply ook_to_brainfuck_spelled; [|done..]. intros ->. by apply elem_of_nil in Hdot. }
  assert (Hvalid : (bracemap_and_check program).2 = true).
  { apply is_brainfuck_iff. split; [|split; [|done]].
    - eapply Forall_impl; [exact Hlegal|]. intros c Hc. unfold is_legal.
      by rewrite bool_decide_eq_true_2.
    - apply depth_after_no_bracket.
      eapply Forall_impl; [exact Hops|]. by intros c [->|[->| ->]]. }
  unfold decode. rewrite Hcode.
  destruct (bracemap_and_check program) as [bracemap isbf]. cbn in Hvalid.
  rewrite Hvalid. cbn [negb]. f_equal.
  apply (run_straight H bracemap program program [] machine_init 0 fuel 0);
    try done.
  apply (reachable_tape_ok [] None). constructor.
Qed.

Lemma decode_straight_line_witness :
  decode still_host 7 (lit "ook! ook! Ook! Ook. Ook. Ook. ook. ook. Ook! Ook.")
  = ([Transpile; Validate; Execute], Returned (Some [255%N; 1%N])).
Proof.
  apply (decode_straight_line still_host _ (lit "-.++.") 7).
  - repeat (constructor; [first [by left|by right; left|by right; right]|]).
    constructor.
  - right. by left.
  - vm_compute. reflexivity.
  - intros; reflexivity.
  - cbn. lia.
Defined.

(** X7. The applicability heuristic scores a text 0 when the text is
    empty or when, lower-cased, it lacks any one of the three markers,
    however often the other two occur. *)
Theorem fitness_needs_all_markers (H : host) (text : str) :
  text = []
  \/ count (str_lower H text) (lit "ook.") = 0%nat
  \/ count (str_lower H text) (lit "ook!") = 0%nat
  \/ count (str_lower H text) (lit "ook?") = 0%nat ->
  fitness H text = 0%float.
Proof.
  intros Hcase. unfold fitness.
  destruct (Nat.eqb_spec (length text) 0) as [|Hlen]; [done|].
  destruct Hcase as [->|Hcase]; [done|].
  assert (Hnot : (0 <? count (str_lower H text) (lit "ook."))%nat
                 && (0 <? count (str_lower H text) (lit "ook!"))%nat
                 && (0 <? count (str_lower H text) (lit "ook?"))%nat = false).
  { destruct Hcase as [->|[->| ->]]; change (0 <? 0)%nat with false;
      by rewrite ?andb_false_r. }
  rewrite Hnot. by destruct (PrimFloat.ltb _ _).
Qed.

Lemma fitness_needs_all_markers_witness :
  fitness still_host sixty_five_text = 0%float.
Proof.
  apply fitness_needs_all_markers. right; right; right.
  vm_compute. reflexivity.
Defined.

(** ** Validator *)

Lemma table_ok_step program idx c s s' :
  scan_step idx c s = Some s' ->
  program !! idx = Some c ->
  table_ok program idx s -> table_ok program (S idx) s'.
Proof.
  intros Hstep Hat (Hok & Hopen & Hpairs).
  pose proof (stack_ok_step _ _ _ _ Hstep Hok) as Hok'.
  assert (Hfresh : bracemap s !! idx = None).
  { destruct (bracemap s !! idx) as [j|] eqn:Hj; [|done].
    destruct (Hpairs _ _ Hj) as (_ & ? & _). lia. }
  apply scan_step_Some in Hstep
    as (_ & _ & [(-> & Hst & Hbm)|[(-> & p & Hst & Hbm)|(_ & _ & Hst & Hbm)]]).
  - split; [done|]. rewrite Hst, Hbm. split.
    + intros p [->|Hp]%elem_of_cons; [done|by apply Hopen].
    + intros i j Hij. destruct (Hpairs i j Hij) as (? & ? & ?).
      split; [done|]. split; [lia|done].
  - assert (Hp : p ∈ open_stack s) by (rewrite Hst; by left).
    destruct (Hopen p Hp) as [Hpat Hpnone].
    assert (Hplt : (p < idx)%nat).
    { destruct Hok as [_ Hlt]. rewrite Forall_forall in Hlt. by apply Hlt. }
    split; [done|]. rewrite Hbm. split.
    + intros q Hq.
      assert (Hq' : q ∈ open_stack s) by (rewrite Hst; by right).
      destruct (Hopen q Hq') as [Hqat Hqnone]. split; [done|].
      assert (q <> p).
      { destruct Hok as [Hnd _]. rewrite Hst in Hnd.
        apply NoDup_cons in Hnd as [Hnotin _]. by intros ->. }
      assert (q < idx)%nat.
      { destruct Hok as [_ Hlt]. rewrite Forall_forall in Hlt. by apply Hlt. }
      rewrite !lookup_insert_ne by lia. done.
    + intros i j Hij.
      destruct (decide (i = idx)) as [->|Hi].
      { rewrite lookup_insert_eq in Hij. injection Hij as <-.
        rewrite lookup_insert_ne, lookup_insert_eq by lia.
        split; [done|]. split; [lia|]. right. done. }
      rewrite lookup_insert_ne in Hij by done.
      destruct (decide (i = p)) as [->|Hip].
      { rewrite lookup_insert_eq in Hij. injection Hij as <-.
        rewrite lookup_insert_eq. split; [done|]. split; [lia|]. left. done. }
      rewrite lookup_insert_ne in Hij by done.
      destruct (Hpairs i j Hij) as (Hji & ? & ?).
      assert (j <> idx) by (intros ->; congruence).
      assert (j <> p) by (intros ->; congruence).
      rewrite !lookup_insert_ne by done. split; [done|]. split; [lia|done].
  - split; [done|]. rewrite Hst, Hbm. split; [done|].
    intros i j Hij. destruct (Hpairs i j Hij) as (? & ? & ?).
    split; [done|]. split; [lia|done].
Qed.

Lemma table_ok_loop rest prefix s s' :
  scan_loop rest (length prefix) s = Some s' ->
  table_ok (prefix ++ rest) (length prefix) s ->
  table_ok (prefix ++ rest) (length (prefix ++ rest)) s'.
Proof.
  revert prefix s. induction rest as [|c rest IH]; intros prefix s; cbn [scan_loop].
  - intros [= <-]. by rewrite app_nil_r.
  - destruct (scan_step (length prefix) c s) as [s1|] eqn:Hstep; [|done].
    intros Hrest Hinv.
    replace (prefix ++ c :: rest) with ((prefix ++ [c]) ++ rest) in *
      by (by rewrite <- app_assoc).
    assert (Hlen : length (prefix ++ [c]) = S (length prefix)).
    { rewrite length_app. cbn. lia. }
    apply (IH (prefix ++ [c]) s1).
    + by rewrite Hlen.
    + rewrite Hlen. apply (table_ok_step _ _ c s); [done| |done].
      rewrite <- app_assoc. by apply list_lookup_middle.
Qed.

Lemma scan_table_ok program s :
  scan_loop program 0 scan_init = Some s ->
  table_ok program (length program) s.
Proof.
  intros Hscan. apply (table_ok_loop program [] scan_init s Hscan).
  split; [split; [apply NoDup_nil_2|constructor]|].
  split; [by intros p ?%elem_of_nil|]. intros i j Hij. by cbn in Hij.
Qed.

(** For an accepted program: the entry of an opening bracket. *)
Lemma accepted_open_entry program table i :
  bracemap_and_check program = (Some table, true) ->
  program !! i = Some (ord "[") ->
  exists j, matching_close program i = Some j
            /\ table !! i = Some j /\ table !! j = Some i.
Proof.
  unfold bracemap_and_check.
  destruct (scan_loop program 0 scan_init) as [s|] eqn:Hscan; [|done].
  intros [= <- Hvalid] Hat.
  assert (Hok : stack_ok 0 (open_stack scan_init)).
  { split; [apply NoDup_nil_2|constructor]. }
  apply andb_true_iff in Hvalid as [[_ Hempty]%andb_true_iff _].
  apply Nat.eqb_eq, length_zero_iff_nil in Hempty.
  pose proof (scan_loop_open _ _ _ _ _ Hscan Hok Hat) as Hopen. cbn in Hopen.
  unfold matching_close.
  destruct (find_close 0 (drop (S i) program) (S i)) as [j|].
  - exists j. by destruct Hopen.
  - rewrite Hempty in Hopen. by apply elem_of_nil in Hopen.
Qed.

(** X8. Whenever the scan runs to the end of the program, accepted or
    not, the jump table it returns is symmetric and has entries between
    brackets only: an entry from [i] to [j] comes with the entry from [j]
    to [i], and one of the two positions holds an opening bracket, the
    other a closing bracket further right. *)
Theorem jump_table_pairs_brackets (program : str) (table : gmap nat nat)
    (verdict : bool) (i j : nat) :
  bracemap_and_check program = (Some table, verdict) ->
  table !! i = Some j ->
  table !! j = Some i
  /\ (bracket_pair program i j \/ bracket_pair program j i).
Proof.
  unfold bracemap_and_check.
  destruct (scan_loop program 0 scan_init) as [s|] eqn:Hscan; [|done].
  intros [= <- _] Hij.
  destruct (scan_table_ok _ _ Hscan) as (_ & _ & Hpairs).
  destruct (Hpairs i j Hij) as (? & _ & ?). done.
Qed.

Lemma jump_table_pairs_brackets_witness :
  (bracemap_and_check (lit "[[.]")).2 = false
  /\ ({[1%nat := 3%nat; 3%nat := 1%nat]} : gmap nat nat) !! 1%nat = Some 3%nat
  /\ (bracket_pair (lit "[[.]") 3 1 \/ bracket_pair (lit "[[.]") 1 3).
Proof.
  split; [vm_compute; reflexivity|].
  assert (Hcheck : bracemap_and_check (lit "[[.]")
                   = (Some {[1%nat := 3%nat; 3%nat := 1%nat]}, false))
    by (vm_compute; reflexivity).
  destruct (jump_table_pairs_brackets _ _ _ 3 1 Hcheck eq_refl) as [Hback Hpair].
  split; [exact Hback|exact Hpair].
Defined.

(** For an accepted program: the entry of a closing bracket is its
    matching opening bracket. *)
Lemma jump_pairs program table i j :
  bracemap_and_check program = (Some table, true) ->
  program !! j = Some (ord "]") ->
  table !! j = Some i ->
  program !! i = Some (ord "[") /\ matching_close program i = Some j.
Proof.
  intros Hcheck Hat Hji.
  assert (Hscan : exists s, scan_loop program 0 scan_init = Some s
                            /\ bracemap s = table).
  { unfold bracemap_and_check in Hcheck.
    destruct (scan_loop program 0 scan_init) as [s|]; [|done].
    injection Hcheck as <- _. by exists s. }
  destruct Hscan as (s & Hscan & <-).
  destruct (scan_table_ok _ _ Hscan) as (_ & _ & Hpairs).
  destruct (Hpairs j i Hji) as (Hij & _ & [(Hopen & _)|(Hopen & _ & Hlt)]);
    [rewrite Hat in Hopen; by injection Hopen|].
  split; [done|].
  destruct (accepted_open_entry program (bracemap s) i Hcheck Hopen)
    as (j' & Hmatch & Hij' & _).
  congruence.
Qed.

(** X9. In an accepted program every closing bracket has an entry: the
    position of the opening bracket it structurally matches, which lies
    to its left and whose own entry points back. *)
Theorem closing_bracket_entry (program : str) (table : gmap nat nat) (j : nat) :
  bracemap_and_check program = (Some table, true) ->
  program !! j = Some (ord "]") ->
  exists i, table !! j = Some i
            /\ (i < j)%nat
            /\ program !! i = Some (ord "[")
            /\ table !! i = Some j
            /\ matching_close program i = Some j.
Proof.
  intros Hcheck Hat.
  destruct (table_complete program table j Hcheck) as [i Hji]; [by right|].
  assert (Hscan : exists s, scan_loop program 0 scan_init = Some s
                            /\ bracemap s = table).
  { unfold bracemap_and_check in Hcheck.
    destruct (scan_loop program 0 scan_init) as [s|]; [|done].
    injection Hcheck as <- _. by exists s. }
  destruct Hscan as (s & Hscan & <-).
  destruct (scan_table_ok _ _ Hscan) as (_ & _ & Hpairs).
  destruct (Hpairs j i Hji) as (Hij & _ & [(Hopen & _)|(Hopen & _ & Hlt)]);
    [rewrite Hat in Hopen; by injection Hopen|].
  exists i. repeat split; try done.
  destruct (accepted_open_entry program (bracemap s) i Hcheck Hopen)
    as (j' & Hmatch & Hij' & _).
  congruence.
Qed.

Lemma closing_bracket_entry_witness :
  exists i, ({[1%nat := 5%nat; 5%nat := 1%nat; 2%nat := 4%nat; 4%nat := 2%nat]}
              : gmap nat nat) !! 4%nat = Some i
            /\ (i < 4)%nat
            /\ lit "+[[-]]." !! i = Some (ord "[")
            /\ ({[1%nat := 5%nat; 5%nat := 1%nat; 2%nat := 4%nat; 4%nat := 2%nat]}
                 : gmap nat nat) !! i = Some 4%nat
            /\ matching_close (lit "+[[-]].") i = Some 4%nat.
Proof.
  apply (closing_bracket_entry (lit "+[[-]].")); [vm_compute|]; reflexivity.
Defined.

(** ** Tape machine *)

Lemma dispatch_open bracemap m :
  dispatch bracemap (ord "[") m =
  (v ← getitem (memory m) (memptr m);
   if v =? 0
   then target ← dict_getitem bracemap (codeptr m); mret (set_codeptr m target)
   else mret m).
Proof.
  unfold dispatch, open_taken. cbn.
  destruct (getitem (memory m) (memptr m)) as [v|]; cbn; [|done].
  by destruct (v =? 0).
Qed.

Lemma dispatch_close bracemap m :
  dispatch bracemap (ord "]") m =
  (v ← getitem (memory m) (memptr m);
   if v =? 0
   then mret m
   else target ← dict_getitem bracemap (codeptr m); mret (set_codeptr m target)).
Proof.
  unfold dispatch, open_taken, close_taken. cbn.
  destruct (getitem (memory m) (memptr m)) as [v|]; cbn; [|done].
  by destruct (v =? 0).
Qed.

Lemma dispatch_dot bracemap m :
  dispatch bracemap (ord ".") m =
  (v ← getitem (memory m) (memptr m);
   c ← chr v;
   mret (set_result m (result m ++ [c]))).
Proof. reflexivity. Qed.

Lemma dispatch_comma bracemap m :
  dispatch bracemap (ord ",") m =
  (memory' ← setitem (memory m) (memptr m) 0; mret (set_memory m memory')).
Proof. reflexivity. Qed.

Lemma dispatch_other bracemap cmd m :
  cmd ∉ legal_instructions -> dispatch bracemap cmd m = Ok m.
Proof.
  rewrite legal_instructions_spec. intros Hnot.
  unfold dispatch, open_taken, close_taken.
  repeat match goal with
         | |- context [N.eqb cmd ?c] =>
             destruct (N.eqb_spec cmd c) as [->|_]; [exfalso; apply Hnot; auto 10|]
         end.
  done.
Qed.

(** The output buffer after a dispatch: one more character for [.],
    nothing else. *)
Lemma dispatch_result bracemap cmd m m1 :
  dispatch bracemap cmd m = Ok m1 ->
  (cmd = ord "." ->
   exists v c, getitem (memory m) (memptr m) = Ok v /\ chr v = Ok c
               /\ m1 = set_result m (result m ++ [c]))
  /\ (cmd <> ord "." -> result m1 = result m).
Proof.
  intros Hd. split.
  - intros ->. rewrite dispatch_dot in Hd.
    destruct (getitem (memory m) (memptr m)) as [v|]; cbn in Hd; [|done].
    destruct (chr v) as [c|] eqn:Hc; cbn in Hd; [|done].
    injection Hd as <-. by exists v, c.
  - intros Hne. revert Hd. unfold dispatch, open_taken, close_taken.
    destruct (N.eqb_spec cmd (ord "+")) as [->|?].
    { destruct (getitem _ _); cbn; [|done].
      destruct (setitem _ _ _); cbn; [|done]. by intros [= <-]. }
    destruct (N.eqb_spec cmd (ord "-")) as [->|?].
    { destruct (getitem _ _); cbn; [|done].
      destruct (setitem _ _ _); cbn; [|done]. by intros [= <-]. }
    destruct (N.eqb_spec cmd (ord ">")) as [->|?].
    { cbn. intros [= <-]. by destruct (_ =? _). }
    destruct (N.eqb_spec cmd (ord "<")) as [->|?].
    { destruct (_ =? _); cbn; by intros [= <-]. }
    destruct (N.eqb_spec cmd (ord "[")) as [->|?].
    { destruct (getitem _ _) as [v|]; cbn; [|done].
      destruct (v =? 0); cbn; [|by intros [= <-]].
      destruct (dict_getitem _ _); cbn; [|done]. by intros [= <-]. }
    cbn. destruct (N.eqb_spec cmd (ord "]")) as [->|?].
    { destruct (getitem _ _) as [v|]; cbn; [|done].
      destruct (v =? 0); cbn; [by intros [= <-]|].
      destruct (dict_getitem _ _); cbn; [|done]. by intros [= <-]. }
    cbn. destruct (N.eqb_spec cmd (ord ".")) as [->|?]; [done|].
    destruct (N.eqb_spec cmd (ord ",")) as [->|?].
    { destruct (setitem _ _ _); cbn; [|done]. by intros [= <-]. }
    by intros [= <-].
Qed.

(** X10. In an accepted program an executed jump lands just past the
    matching bracket and changes nothing else: an opening bracket on a
    zero cell continues after its matching closing bracket, a closing
    bracket on a non-zero cell continues after its matching opening
    bracket, at the start of the loop body. *)
Theorem jump_lands_past_match (program : str) (table : gmap nat nat)
    (m : machine) (v : Z) :
  bracemap_and_check program = (Some table, true) ->
  getitem (memory m) (memptr m) = Ok v ->
  (program !! codeptr m = Some (ord "[") -> v = 0 ->
   exists j, matching_close program (codeptr m) = Some j
             /\ step program (Some table) m = Ok (set_codeptr m (S j)))
  /\ (program !! codeptr m = Some (ord "]") -> v <> 0 ->
      exists i, matching_close program i = Some (codeptr m)
                /\ program !! i = Some (ord "[")
                /\ step program (Some table) m = Ok (set_codeptr m (S i))).
Proof.
  intros Hcheck Hget. split.
  - intros Hcmd ->.
    destruct (accepted_open_entry _ _ _ Hcheck Hcmd) as (j & Hmatch & Hij & _).
    exists j. split; [done|].
    rewrite (step_at _ _ _ _ Hcmd), dispatch_open, Hget. cbn. by rewrite Hij.
  - intros Hcmd Hv.
    destruct (table_complete program table (codeptr m) Hcheck) as [i Hji];
      [by right|].
    destruct (jump_pairs program table i (codeptr m) Hcheck Hcmd Hji)
      as (Hopen & Hmatch).
    exists i. split; [done|]. split; [done|].
    rewrite (step_at _ _ _ _ Hcmd), dispatch_close, Hget. cbn.
    destruct (Z.eqb_spec v 0); [done|]. cbn. by rewrite Hji.
Qed.

Lemma jump_lands_past_match_witness :
  exists j, matching_close (lit "[.]") (codeptr machine_init) = Some j
            /\ step (lit "[.]") (Some {[0%nat := 2%nat; 2%nat := 0%nat]}) machine_init
               = Ok (set_codeptr machine_init (S j)).
Proof.
  assert (Hcheck : bracemap_and_check (lit "[.]")
                   = (Some {[0%nat := 2%nat; 2%nat := 0%nat]}, true))
    by (vm_compute; reflexivity).
  assert (Hget : getitem (memory machine_init) (memptr machine_init) = Ok 0)
    by reflexivity.
  exact (proj1 (jump_lands_past_match _ _ machine_init 0 Hcheck Hget)
           eq_refl eq_refl).
Defined.

Lemma dots_cons c program :
  dots (c :: program) = ((if (c =? ord ".")%N then 1 else 0) + dots program)%nat.
Proof.
  unfold dots. rewrite filter_cons.
  destruct (N.eqb_spec c (ord ".")) as [->|Hne].
  - by rewrite decide_True.
  - by rewrite decide_False.
Qed.

(** The loop on a suffix without brackets: every instruction is executed
    once, in order. *)
Lemma run_loop_free H bracemap brainfuck_code suffix :
  forall prefix m n fuel,
    brainfuck_code = prefix ++ suffix ->
    codeptr m = length prefix ->
    tape_ok m -> output_ok m ->
    Forall (fun c => c <> ord "[" /\ c <> ord "]") suffix ->
    (forall k, (n < k <= n + length suffix)%nat ->
               timed_out (time_time H 0) (time_time H k) = false) ->
    (length suffix <= fuel)%nat ->
    exists out,
      run H brainfuck_code bracemap fuel n m = Returned (Some (result m ++ out))
      /\ length out = dots suffix.
Proof.
  induction suffix as [|c suffix IH];
    intros prefix m n fuel Hcode Hptr Hok Hout Hops Hclock Hfuel.
  - exists []. rewrite app_nil_r. split; [|done]. apply run_done.
    rewrite Hcode, Hptr, length_app. cbn. lia.
  - cbn [length] in *. destruct fuel as [|fuel]; [lia|].
    assert (Hlt : (codeptr m < length brainfuck_code)%nat).
    { rewrite Hcode, Hptr, length_app. cbn. lia. }
    assert (Hcmd : brainfuck_code !! codeptr m = Some c).
    { rewrite Hcode, Hptr. by rewrite list_lookup_middle. }
    apply Forall_cons in Hops as [[Ho Hc] Hops].
    rewrite run_step; [|done|apply Hclock; lia].
    rewrite (step_at _ _ _ _ Hcmd).
    pose proof (dispatch_tape_ok bracemap c m Hok Hout) as Hd.
    destruct (dispatch bracemap c m) as [m1|e] eqn:Hdisp;
      [|by destruct Hd as [[?|?] _]].
    destruct Hd as [Hok1 Hout1]. cbn [mbind res_bind mret res_ret].
    destruct (dispatch_codeptr _ _ _ _ Hdisp) as [_ Hstay].
    assert (Hptr1 : codeptr m1 = codeptr m).
    { apply Hstay. by intros (? & _ & [[? _]|[? _]]). }
    destruct (IH (prefix ++ [c]) (set_codeptr m1 (S (codeptr m1))) (S n) fuel)
      as (out & Hrun & Hlen); try done.
    + by rewrite <- app_assoc.
    + cbn. rewrite length_app, Hptr1, Hptr. cbn. lia.
    + intros k Hk. apply Hclock. lia.
    + lia.
    + rewrite Hrun, dots_cons. cbn [result set_codeptr].
      destruct (dispatch_result _ _ _ _ Hdisp) as [Hdot Hother].
      destruct (N.eqb_spec c (ord ".")) as [->|Hne].
      * destruct (Hdot eq_refl) as (v & ch & _ & _ & ->). cbn [result set_result].
        exists (ch :: out). rewrite <- app_assoc. split; [done|]. cbn. by rewrite Hlen.
      * rewrite (Hother Hne). by exists out.
Qed.

(** X11. A program without brackets always comes to its end: run from
    the initial machine before the deadline, it executes each of its
    characters once, raises nothing whatever the jump table, and returns
    exactly one character of output per output instruction. *)
Theorem loop_free_program_terminates (H : host)
    (bracemap : option (gmap nat nat)) (program : str) (fuel : nat) :
  Forall (fun c => c <> ord "[" /\ c <> ord "]") program ->
  (forall k, (1 <= k <= length program)%nat ->
             timed_out (time_time H 0) (time_time H k) = false) ->
  (length program <= fuel)%nat ->
  exists out,
    run H program bracemap fuel 0 machine_init = Returned (Some out)
    /\ length out = dots program.
Proof.
  intros Hops Hclock Hfuel.
  destruct (reachable_tape_ok [] None machine_init) as [Hok Hout]; [constructor|].
  destruct (run_loop_free H bracemap program program [] machine_init 0 fuel
              eq_refl eq_refl Hok Hout Hops)
    as (out & Hrun & Hlen); [intros k Hk; apply Hclock; lia|done|].
  by exists out.
Qed.

Lemma loop_free_program_terminates_witness :
  exists out,
    run still_host (lit ">+.<,. -.") None 9 0 machine_init = Returned (Some out)
    /\ length out = 3%nat.
Proof.
  apply (loop_free_program_terminates still_host None (lit ">+.<,. -.") 9).
  - repeat (constructor; [by split|]). constructor.
  - intros; reflexivity.
  - cbn. lia.
Defined.

(** X12. The output buffer only grows, and only by [.]: a step on [.]
    appends the character whose code point is the current cell and
    leaves tape and tape pointer alone; a step on anything else leaves
    the buffer as it is. *)
Theorem output_grows_by_dot (brainfuck_code : str)
    (bracemap : option (gmap nat nat)) (m m' : machine) :
  step brainfuck_code bracemap m = Ok m' ->
  (brainfuck_code !! codeptr m = Some (ord ".") ->
   exists v c, getitem (memory m) (memptr m) = Ok v /\ chr v = Ok c
               /\ result m' = result m ++ [c]
               /\ memory m' = memory m /\ memptr m' = memptr m)
  /\ (brainfuck_code !! codeptr m <> Some (ord ".") -> result m' = result m).
Proof.
  intros Hstep. destruct (step_Ok_cmd _ _ _ _ Hstep) as [cmd Hcmd].
  rewrite (step_at _ _ _ _ Hcmd) in Hstep.
  destruct (dispatch bracemap cmd m) as [m1|] eqn:Hd; [|done].
  cbn in Hstep. injection Hstep as <-. cbn [result memory memptr set_codeptr].
  destruct (dispatch_result _ _ _ _ Hd) as [Hdot Hother]. split.
  - intros Hat. assert (cmd = ord ".") as -> by congruence.
    destruct (Hdot eq_refl) as (v & c & Hget & Hchr & ->). by exists v, c.
  - intros Hne. apply Hother. intros ->. by apply Hne.
Qed.

Lemma output_grows_by_dot_witness :
  exists m', step (lit ".") None at_right_edge = Ok m'
             /\ result m' = result at_right_edge ++ [0%N].
Proof.
  eexists. split; [reflexivity|].
  destruct (output_grows_by_dot (lit ".") None at_right_edge _ eq_refl)
    as [Hdot _].
  destruct (Hdot eq_refl) as (v & c & Hget & Hchr & Hres & _).
  rewrite Hres. injection Hget as <-. injection Hchr as <-. reflexivity.
Defined.

(** X13. There is no input: a step on [,] stores 0 in the current cell
    and touches nothing else, neither another cell, the tape pointer nor
    the output. *)
Theorem input_zeroes_cell (brainfuck_code : str)
    (bracemap : option (gmap nat nat)) (m : machine) :
  tape_ok m ->
  brainfuck_code !! codeptr m = Some (ord ",") ->
  exists m', step brainfuck_code bracemap m = Ok m'
             /\ memory m' = <[Z.to_nat (memptr m) := 0]> (memory m)
             /\ getitem (memory m') (memptr m') = Ok 0
             /\ memptr m' = memptr m
             /\ result m' = result m
             /\ codeptr m' = S (codeptr m).
Proof.
  intros Hok Hcmd. rewrite (step_at _ _ _ _ Hcmd), dispatch_comma.
  destruct (tape_ok_write m 0 Hok) as [-> Hok']; [lia|]. cbn.
  eexists. split; [reflexivity|]. cbn. repeat split.
  apply getitem_nonneg; [destruct Hok; lia|].
  apply list_lookup_insert_eq. destruct Hok. lia.
Qed.

Lemma input_zeroes_cell_witness :
  exists m', step (lit "+,") None
               {| codeptr := 1; memptr := 0; memory := [7; 9]; result := [] |}
             = Ok m'
             /\ memory m' = [0; 9].
Proof.
  destruct (input_zeroes_cell (lit "+,") None
              {| codeptr := 1; memptr := 0; memory := [7; 9]; result := [] |})
    as (m' & Hstep & Hmem & _).
  - split; cbn; [lia|]. repeat constructor; lia.
  - reflexivity.
  - exists m'. split; [exact Hstep|exact Hmem].
Defined.

(** X14. The dispatch has no default branch: a character that is none of
    the eight instructions, such as the whitespace the validator lets
    through, only advances the instruction pointer. *)
Theorem other_characters_skipped (brainfuck_code : str)
    (bracemap : option (gmap nat nat)) (m : machine) (cmd : N) :
  brainfuck_code !! codeptr m = Some cmd ->
  cmd ∉ legal_instructions ->
  step brainfuck_code bracemap m = Ok (set_codeptr m (S (codeptr m))).
Proof.
  intros Hcmd Hnot. by rewrite (step_at _ _ _ _ Hcmd), dispatch_other.
Qed.

Lemma other_characters_skipped_witness :
  (bracemap_and_check (lit "+ .")).2 = true
  /\ step (lit "+ .") None (set_codeptr machine_init 1)
     = Ok (set_codeptr machine_init 2).
Proof.
  split; [vm_compute; reflexivity|].
  apply (other_characters_skipped (lit "+ .") None (set_codeptr machine_init 1) 32%N).
  - reflexivity.
  - rewrite legal_instructions_spec. intros [?|[?|[?|[?|[?|[?|[?|?]]]]]]]; done.
Defined.



(** ** The clearing loop *)

Lemma step_open_through brainfuck_code bracemap m v :
  brainfuck_code !! codeptr m = Some (ord "[") ->
  getitem (memory m) (memptr m) = Ok v -> v <> 0 ->
  step brainfuck_code bracemap m = Ok (set_codeptr m (S (codeptr m))).
Proof.
  intros Hcmd Hget Hv. rewrite (step_at _ _ _ _ Hcmd), dispatch_open, Hget. cbn.
  by destruct (Z.eqb_spec v 0).
Qed.

Lemma step_open_jump brainfuck_code table m target :
  brainfuck_code !! codeptr m = Some (ord "[") ->
  getitem (memory m) (memptr m) = Ok 0 ->
  table !! codeptr m = Some target ->
  step brainfuck_code (Some table) m = Ok (set_codeptr m (S target)).
Proof.
  intros Hcmd Hget Ht. rewrite (step_at _ _ _ _ Hcmd), dispatch_open, Hget. cbn.
  by rewrite Ht.
Qed.

Lemma step_close_through brainfuck_code bracemap m :
  brainfuck_code !! codeptr m = Some (ord "]") ->
  getitem (memory m) (memptr m) = Ok 0 ->
  step brainfuck_code bracemap m = Ok (set_codeptr m (S (codeptr m))).
Proof.
  intros Hcmd Hget. by rewrite (step_at _ _ _ _ Hcmd), dispatch_close, Hget.
Qed.

Lemma step_close_back brainfuck_code table m v target :
  brainfuck_code !! codeptr m = Some (ord "]") ->
  getitem (memory m) (memptr m) = Ok v -> v <> 0 ->
  table !! codeptr m = Some target ->
  step brainfuck_code (Some table) m = Ok (set_codeptr m (S target)).
Proof.
  intros Hcmd Hget Hv Ht. rewrite (step_at _ _ _ _ Hcmd), dispatch_close, Hget. cbn.
  destruct (Z.eqb_spec v 0); [done|]. cbn. by rewrite Ht.
Qed.

Lemma step_minus_positive brainfuck_code bracemap m v :
  tape_ok m ->
  brainfuck_code !! codeptr m = Some (ord "-") ->
  memory m !! Z.to_nat (memptr m) = Some v -> 0 < v ->
  step brainfuck_code bracemap m
  = Ok {| codeptr := S (codeptr m); memptr := memptr m;
          memory := <[Z.to_nat (memptr m) := v - 1]> (memory m);
          result := result m |}.
Proof.
  intros Hok Hcmd Hcell Hv. rewrite (step_at _ _ _ _ Hcmd).
  change (dispatch bracemap (ord "-") m) with
    (v ← getitem (memory m) (memptr m);
     memory' ← setitem (memory m) (memptr m) (if 0 <? v then v - 1 else 255);
     mret (set_memory m memory')).
  rewrite (getitem_nonneg _ _ _ (proj1 (proj1 Hok)) Hcell). cbn [mbind res_bind].
  destruct (Z.ltb_spec 0 v); [|lia].
  rewrite setitem_nonneg by (by destruct Hok). done.
Qed.

(** The bracket entries of a [[-]] at positions [i], [i+1], [i+2]. *)
Lemma clear_loop_entries program table i :
  bracemap_and_check program = (Some table, true) ->
  program !! i = Some (ord "[") ->
  program !! S i = Some (ord "-") ->
  program !! S (S i) = Some (ord "]") ->
  table !! i = Some (S (S i)) /\ table !! S (S i) = Some i.
Proof.
  intros Hcheck Hopen Hminus Hclose.
  destruct (accepted_open_entry _ _ _ Hcheck Hopen) as (j & Hmatch & Hij & Hji).
  assert (j = S (S i)) as ->; [|done].
  unfold matching_close in Hmatch.
  rewrite (drop_S _ _ _ Hminus), (drop_S _ _ _ Hclose) in Hmatch.
  change (find_close 0 (ord "-" :: ord "]" :: drop (S (S (S i))) program) (S i))
    with (Some (S (S i))) in Hmatch.
  congruence.
Qed.

(** From the [-] of a [[-]] on a positive cell: two iterations per unit
    bring the cell to 0 and the pointer past the loop. *)
Lemma clear_loop_body H program table i :
  bracemap_and_check program = (Some table, true) ->
  program !! i = Some (ord "[") ->
  program !! S i = Some (ord "-") ->
  program !! S (S i) = Some (ord "]") ->
  forall w m n fuel,
    codeptr m = S i ->
    tape_ok m ->
    memory m !! Z.to_nat (memptr m) = Some (Z.of_nat (S w)) ->
    (forall k, (n < k <= n + 2 * S w)%nat ->
               timed_out (time_time H 0) (time_time H k) = false) ->
    run H program (Some table) (fuel + 2 * S w) n m
    = run H program (Some table) fuel (n + 2 * S w)
        {| codeptr := S (S (S i)); memptr := memptr m;
           memory := <[Z.to_nat (memptr m) := 0]> (memory m);
           result := result m |}.
Proof.
  intros Hcheck Hopen Hminus Hclose.
  destruct (clear_loop_entries _ _ _ Hcheck Hopen Hminus Hclose) as [_ Hback].
  induction w as [|w IH]; intros m n fuel Hptr Hok Hcell Hclock.
  all: destruct Hok as [Hrange Hcells].
  all: destruct m as [cp mp mem res]; cbn [codeptr memptr memory result] in *;
    subst cp.
  all: assert (Hin : (Z.to_nat mp < length mem)%nat) by lia.
  1: replace (fuel + 2 * 1)%nat with (S (S fuel)) by lia.
  2: replace (fuel + 2 * S (S w))%nat with (S (S (fuel + 2 * S w)))%nat by lia.
  all: rewrite run_step;
    [|by apply lookup_lt_Some in Hminus|apply Hclock; lia].
  all: rewrite (step_minus_positive program (Some table)
                  {| codeptr := S i; memptr := mp; memory := mem; result := res |}
                  _ (conj Hrange Hcells) Hminus Hcell ltac:(lia));
    cbn [codeptr memptr memory result].
  all: rewrite run_step;
    [|by apply lookup_lt_Some in Hclose|apply Hclock; lia].
  - rewrite (step_close_through program (Some table)).
    + by replace (n + 2 * 1)%nat with (S (S n)) by lia.
    + done.
    + cbn. apply getitem_nonneg; [lia|]. by apply list_lookup_insert_eq.
  - rewrite (step_close_back program table _ (Z.of_nat (S w)) i).
    + rewrite IH; cbn [codeptr memptr memory result set_codeptr].
      * rewrite list_insert_insert_eq.
        by replace (S (S n) + 2 * S w)%nat with (n + 2 * S (S w))%nat by lia.
      * done.
      * split; cbn; [by rewrite length_insert|].
        apply Forall_insert; [done|].
        rewrite Forall_forall in Hcells.
        assert (0 <= Z.of_nat (S (S w)) <= 255); [|lia].
        apply Hcells. apply list_elem_of_lookup. eauto.
      * rewrite list_lookup_insert_eq by done. f_equal. lia.
      * intros k Hk. apply Hclock. lia.
    + done.
    + cbn. apply getitem_nonneg; [lia|].
      rewrite list_lookup_insert_eq by done. f_equal. lia.
    + lia.
    + done.
Qed.

(** X16. The idiom [[-]] clears the current cell: in an accepted
    program, from any well-formed tape whose current cell holds [v], the
    loop at the instruction pointer takes [2 v + 1] iterations and then
    the machine goes on just past the loop with that cell at 0 and
    everything else unchanged. *)
Theorem clear_loop_zeroes_cell (H : host) (program : str)
    (table : gmap nat nat) (m : machine) (v : Z) (n fuel : nat) :
  bracemap_and_check program = (Some table, true) ->
  program !! codeptr m = Some (ord "[") ->
  program !! S (codeptr m) = Some (ord "-") ->
  program !! S (S (codeptr m)) = Some (ord "]") ->
  tape_ok m ->
  memory m !! Z.to_nat (memptr m) = Some v ->
  (forall k, (n < k <= n + (2 * Z.to_nat v + 1))%nat ->
             timed_out (time_time H 0) (time_time H k) = false) ->
  run H program (Some table) (fuel + (2 * Z.to_nat v + 1)) n m
  = run H program (Some table) fuel (n + (2 * Z.to_nat v + 1))
      {| codeptr := S (S (S (codeptr m))); memptr := memptr m;
         memory := <[Z.to_nat (memptr m) := 0]> (memory m);
         result := result m |}.
Proof.
  intros Hcheck Hopen Hminus Hclose Hok Hcell Hclock.
  destruct (clear_loop_entries _ _ _ Hcheck Hopen Hminus Hclose) as [Hfwd _].
  assert (Hv : 0 <= v <= 255).
  { destruct Hok as [_ Hcells]. rewrite Forall_forall in Hcells.
    apply Hcells. apply list_elem_of_lookup. eauto. }
  assert (Hget : getitem (memory m) (memptr m) = Ok v).
  { apply getitem_nonneg; [destruct Hok; lia|done]. }
  replace (fuel + (2 * Z.to_nat v + 1))%nat with (S (fuel + 2 * Z.to_nat v)) by lia.
  rewrite run_step;
    [|by apply lookup_lt_Some in Hopen|apply Hclock; lia].
  destruct (Z.to_nat v) as [|w] eqn:Hw.
  - assert (v = 0) as -> by lia.
    rewrite (step_open_jump _ _ _ _ Hopen Hget Hfwd).
    rewrite (list_insert_id _ _ _ Hcell).
    replace (fuel + 2 * 0)%nat with fuel by lia.
    by replace (n + (2 * 0 + 1))%nat with (S n) by lia.
  - rewrite (step_open_through _ _ _ _ Hopen Hget) by lia.
    rewrite (clear_loop_body H program table (codeptr m) Hcheck Hopen Hminus Hclose
               w (set_codeptr m (S (codeptr m))) (S n) fuel).
    + cbn [memptr memory result set_codeptr].
      by replace (S n + 2 * S w)%nat with (n + (2 * S w + 1))%nat by lia.
    + done.
    + done.
    + cbn. rewrite Hcell. f_equal. lia.
    + intros k Hk. apply Hclock. lia.
Qed.

Lemma clear_loop_zeroes_cell_witness :
  run still_host (lit "+++[-].") (Some {[3%nat := 5%nat; 5%nat := 3%nat]}) 8 0
    {| codeptr := 3; memptr := 1; memory := [9; 3]; result := [] |}
  = Returned (Some [0%N]).
Proof.
  rewrite (clear_loop_zeroes_cell still_host (lit "+++[-].")
             {[3%nat := 5%nat; 5%nat := 3%nat]}
             {| codeptr := 3; memptr := 1; memory := [9; 3]; result := [] |}
             3 0 1).
  - reflexivity.
  - vm_compute. reflexivity.
  - reflexivity.
  - reflexivity.
  - reflexivity.
  - split; cbn; [lia|]. repeat constructor; lia.
  - reflexivity.
  - intros; reflexivity.
Defined.

(** ** Round trips of single instructions *)

Lemma step_plus_tape brainfuck_code bracemap m v :
  tape_ok m ->
  brainfuck_code !! codeptr m = Some (ord "+") ->
  memory m !! Z.to_nat (memptr m) = Some v ->
  step brainfuck_code bracemap m
  = Ok {| codeptr := S (codeptr m); memptr := memptr m;
          memory := <[Z.to_nat (memptr m) := if v <? 255 then v + 1 else 0]> (memory m);
          result := result m |}.
Proof.
  intros Hok Hcmd Hcell. rewrite (step_at _ _ _ _ Hcmd).
  change (dispatch bracemap (ord "+") m) with
    (v ← getitem (memory m) (memptr m);
     memory' ← setitem (memory m) (memptr m) (if v <? 255 then v + 1 else 0);
     mret (set_memory m memory')).
  rewrite (getitem_nonneg _ _ _ (proj1 (proj1 Hok)) Hcell). cbn [mbind res_bind].
  rewrite setitem_nonneg by (by destruct Hok). done.
Qed.

Lemma step_minus_tape brainfuck_code bracemap m v :
  tape_ok m ->
  brainfuck_code !! codeptr m = Some (ord "-") ->
  memory m !! Z.to_nat (memptr m) = Some v ->
  step brainfuck_code bracemap m
  = Ok {| codeptr := S (codeptr m); memptr := memptr m;
          memory := <[Z.to_nat (memptr m) := if 0 <? v then v - 1 else 255]> (memory m);
          result := result m |}.
Proof.
  intros Hok Hcmd Hcell. rewrite (step_at _ _ _ _ Hcmd).
  change (dispatch bracemap (ord "-") m) with
    (v ← getitem (memory m) (memptr m);
     memory' ← setitem (memory m) (memptr m) (if 0 <? v then v - 1 else 255);
     mret (set_memory m memory')).
  rewrite (getitem_nonneg _ _ _ (proj1 (proj1 Hok)) Hcell). cbn [mbind res_bind].
  rewrite setitem_nonneg by (by destruct Hok). done.
Qed.

(** X17. [+] and [-] undo each other on every cell, the wrapping ones
    included: a [+] followed by a [-], or a [-] followed by a [+], leaves
    the machine as it was, two instructions further. *)
Theorem increment_decrement_round_trip (brainfuck_code : str)
    (bracemap : option (gmap nat nat)) (m : machine) (c1 c2 : N) :
  tape_ok m ->
  brainfuck_code !! codeptr m = Some c1 ->
  brainfuck_code !! S (codeptr m) = Some c2 ->
  (c1 = ord "+" /\ c2 = ord "-") \/ (c1 = ord "-" /\ c2 = ord "+") ->
  exists m1, step brainfuck_code bracemap m = Ok m1
             /\ step brainfuck_code bracemap m1
                = Ok (set_codeptr m (S (S (codeptr m)))).
Proof.
  intros Hok Hc1 Hc2 Hcase.
  destruct (tape_ok_cell m Hok) as (v & Hcell & Hv & _).
  destruct Hok as [Hrange Hcells].
  destruct m as [cp mp mem res]; cbn [codeptr memptr memory result] in *.
  assert (Hin : (Z.to_nat mp < length mem)%nat) by lia.
  destruct Hcase as [[-> ->]|[-> ->]].
  - eexists. split; [by apply (step_plus_tape _ _ _ v)|].
    rewrite (step_minus_tape _ _ _ (if v <? 255 then v + 1 else 0));
      cbn [codeptr memptr memory result].
    + rewrite list_insert_insert_eq. unfold set_codeptr. cbn. do 2 f_equal.
      apply list_insert_id. rewrite Hcell. f_equal.
      destruct (Z.ltb_spec v 255); [destruct (Z.ltb_spec 0 (v + 1))|]; cbn; lia.
    + split; cbn; [by rewrite length_insert|].
      apply Forall_insert; [done|]. destruct (Z.ltb_spec v 255); lia.
    + done.
    + by apply list_lookup_insert_eq.
  - eexists. split; [by apply (step_minus_tape _ _ _ v)|].
    rewrite (step_plus_tape _ _ _ (if 0 <? v then v - 1 else 255));
      cbn [codeptr memptr memory result].
    + rewrite list_insert_insert_eq. unfold set_codeptr. cbn. do 2 f_equal.
      apply list_insert_id. rewrite Hcell. f_equal.
      destruct (Z.ltb_spec 0 v); [destruct (Z.ltb_spec (v - 1) 255)|]; cbn; lia.
    + split; cbn; [by rewrite length_insert|].
      apply Forall_insert; [done|]. destruct (Z.ltb_spec 0 v); lia.
    + done.
    + by apply list_lookup_insert_eq.
Qed.

Lemma increment_decrement_round_trip_witness :
  exists m1,
    step (lit "+-") None
      {| codeptr := 0; memptr := 0; memory := [255]; result := [] |} = Ok m1
    /\ step (lit "+-") None m1
       = Ok {| codeptr := 2; memptr := 0; memory := [255]; result := [] |}.
Proof.
  apply (increment_decrement_round_trip (lit "+-") None
           {| codeptr := 0; memptr := 0; memory := [255]; result := [] |}
           (ord "+") (ord "-")).
  - split; cbn; [lia|]. repeat constructor; lia.
  - reflexivity.
  - reflexivity.
  - by left.
Defined.

(** X18. Moving right and then left comes back to the same cell, with one
    zero cell appended when the move started on the last cell; moving
    left and then right comes back to the same cell except from cell 0,
    where the pointer has wrapped to the last cell and the move right
    then grows the tape: the pointer ends on the new cell, not on cell 0. *)
Theorem pointer_moves_round_trip (brainfuck_code : str)
    (bracemap : option (gmap nat nat)) (m : machine) :
  tape_ok m ->
  (brainfuck_code !! codeptr m = Some (ord ">") ->
   brainfuck_code !! S (codeptr m) = Some (ord "<") ->
   exists m1 m2,
     step brainfuck_code bracemap m = Ok m1
     /\ step brainfuck_code bracemap m1 = Ok m2
     /\ memptr m2 = memptr m
     /\ (memptr m <> Z.of_nat (length (memory m)) - 1 -> memory m2 = memory m)
     /\ (memptr m = Z.of_nat (length (memory m)) - 1 ->
         memory m2 = memory m ++ [0]))
  /\ (brainfuck_code !! codeptr m = Some (ord "<") ->
      brainfuck_code !! S (codeptr m) = Some (ord ">") ->
      exists m1 m2,
        step brainfuck_code bracemap m = Ok m1
        /\ step brainfuck_code bracemap m1 = Ok m2
        /\ (memptr m <> 0 -> memptr m2 = memptr m /\ memory m2 = memory m)
        /\ (memptr m = 0 ->
            memptr m2 = Z.of_nat (length (memory m))
            /\ memory m2 = memory m ++ [0])).
Proof.
  intros [Hrange _]. split; intros Hc1 Hc2.
  - rewrite (step_at _ _ _ _ Hc1), dispatch_right. cbv zeta.
    destruct (Z.eqb_spec (memptr m) (Z.of_nat (length (memory m)) - 1)) as [Hedge|Hin].
    all: eexists _, _; (split; [reflexivity|]).
    all: rewrite (step_at _ _ _ (ord "<")) by exact Hc2.
    all: rewrite dispatch_left; cbn [memptr memory set_memptr set_memory set_codeptr].
    all: destruct (Z.eqb_spec (memptr m + 1) 0); [lia|].
    all: split; [reflexivity|]; cbn.
    all: repeat split; done || lia.
  - rewrite (step_at _ _ _ _ Hc1), dispatch_left.
    destruct (Z.eqb_spec (memptr m) 0) as [Hzero|Hne].
    all: eexists _, _; (split; [reflexivity|]).
    all: rewrite (step_at _ _ _ (ord ">")) by exact Hc2.
    all: rewrite dispatch_right; cbv zeta;
      cbn [memptr memory set_memptr set_memory set_codeptr].
    + rewrite Z.eqb_refl. split; [reflexivity|]. cbn.
      split; [done|]. intros _. split; [lia|done].
    + destruct (Z.eqb_spec (memptr m - 1) (Z.of_nat (length (memory m)) - 1)); [lia|].
      split; [reflexivity|]. cbn. split; [|done]. intros _. split; [lia|done].
Qed.

Lemma pointer_moves_round_trip_witness :
  exists m1 m2,
    step (lit "<>") None machine_init = Ok m1
    /\ step (lit "<>") None m1 = Ok m2
    /\ memptr m2 = 100
    /\ length (memory m2) = 101%nat.
Proof.
  destruct (pointer_moves_round_trip (lit "<>") None machine_init) as [_ Hleft].
  - split; [cbn; lia|]. apply (proj1 (reachable_tape_ok [] None _ (reach_init _ _))).
  - destruct (Hleft eq_refl eq_refl) as (m1 & m2 & H1 & H2 & _ & Hwrap).
    destruct (Hwrap eq_refl) as [Hptr Hmem].
    exists m1, m2. split; [exact H1|]. split; [exact H2|].
    split; [exact Hptr|]. rewrite Hmem. reflexivity.
Defined.

(** ** The clock and the output *)

Lemma run_output_unique H1 H2 brainfuck_code bracemap fuel1 :
  forall fuel2 n1 n2 m s1 s2,
    run H1 brainfuck_code bracemap fuel1 n1 m = Returned (Some s1) ->
    run H2 brainfuck_code bracemap fuel2 n2 m = Returned (Some s2) ->
    s1 = s2.
Proof.
  induction fuel1 as [|fuel1 IH]; intros fuel2 n1 n2 m s1 s2.
  all: destruct (Nat.ltb_spec (codeptr m) (length brainfuck_code)) as [Hlt|Hge];
    [|rewrite !run_done by done; congruence].
  - cbn [run]. by destruct (Nat.ltb_spec (codeptr m) (length brainfuck_code)); [|lia].
  - destruct (timed_out (time_time H1 0) (time_time H1 (S n1))) eqn:Hto1;
      [by rewrite run_timeout|].
    rewrite run_step by done.
    destruct fuel2 as [|fuel2].
    { cbn [run]. by destruct (Nat.ltb_spec (codeptr m) (length brainfuck_code)); [|lia]. }
    destruct (timed_out (time_time H2 0) (time_time H2 (S n2))) eqn:Hto2;
      [by rewrite (run_timeout H2)|].
    rewrite (run_step H2) by done.
    destruct (step brainfuck_code bracemap m) as [m'|]; [|done].
    apply IH.
Qed.

(** X19. Time never changes what is decoded: when two calls of [decode]
    on texts with the same lower-cased form both return a string, they
    return the same string, whatever the readings of their clocks. *)
Theorem decoded_output_independent_of_clock (H1 H2 : host) (text1 text2 : str)
    (fuel1 fuel2 : nat) (s1 s2 : str) :
  str_lower H1 text1 = str_lower H2 text2 ->
  (decode H1 fuel1 text1).2 = Returned (Some s1) ->
  (decode H2 fuel2 text2).2 = Returned (Some s2) ->
  s1 = s2.
Proof.
  intros Hlower. unfold decode, ook_to_brainfuck, tokens_of. rewrite Hlower.
  destruct (pair_tokens _) as [|c code]; [done|].
  destruct (bracemap_and_check (c :: code)) as [bracemap [|]]; [|done].
  cbn. apply run_output_unique.
Qed.

Lemma decoded_output_independent_of_clock_witness :
  (decode still_host 5 (lit "OOK. OOK. OOK! OOK.")).2 = Returned (Some [1%N])
  /\ (decode slow_host 2 (lit "ook. ook. ook! ook.")).2 = Returned (Some [1%N])
  /\ [1%N] = [1%N].
Proof.
  assert (Hstill : (decode still_host 5 (lit "OOK. OOK. OOK! OOK.")).2
                   = Returned (Some [1%N])) by (vm_compute; reflexivity).
  assert (Hslow : (decode slow_host 2 (lit "ook. ook. ook! ook.")).2
                  = Returned (Some [1%N])) by (vm_compute; reflexivity).
  split; [exact Hstill|]. split; [exact Hslow|].
  apply (decoded_output_independent_of_clock still_host slow_host
           (lit "OOK. OOK. OOK! OOK.") (lit "ook. ook. ook! ook.") 5 2);
    [vm_compute; reflexivity|exact Hstill|exact Hslow].
Defined.
